(** * machinery/v1: the worker's dispatch and continuation engine

    A shallow embedding of [src/v1/worker.go] ([processMessage] and
    [finalize]) together with the part of the Go runtime those two
    functions lean on ([reflect.Value], [errors.New], slices), followed by
    the properties of the continuation engine. *)

From stdpp Require Import gmap strings list fin_maps.

Open Scope string_scope.
Open Scope list_scope.

(** ** The Go runtime, as far as the worker uses it *)

Module Go.

(** [reflect.Kind], restricted to the kinds the worker can meet. *)
Inductive Kind :=
| Bool | Int64 | Float64 | String | Struct
| Interface | Ptr | Slice | Map | Func | Chan.

(** A Go type: [String()] is what [reflect.Type.String] prints. *)
Record Type_ := mkType { Type_String : string; Type_Kind : Kind }.

(** An [error] value: its dynamic type and the text of [Error()]. *)
Record error := mkError { err_Type : Type_; Error : string }.

(** What an [interface{}] can hold here. *)
Inductive any :=
| nil
| bool_ (b : bool)
| int64_ (z : Z)
| string_ (s : string)
| error_ (e : error).

Definition t_bool := mkType "bool" Bool.
Definition t_int64 := mkType "int64" Int64.
Definition t_string := mkType "string" String.
Definition t_error := mkType "error" Interface.
Definition t_any := mkType "interface {}" Interface.
Definition t_errorString := mkType "*errors.errorString" Ptr.

(** [errors.New(text)]: a [*errors.errorString] whose [Error()] is
    [text]. *)
Definition errors_New (text : string) : error := mkError t_errorString text.

#[global] Instance Kind_eq_dec : EqDecision Kind.
Proof. solve_decision. Defined.
#[global] Instance Type_eq_dec : EqDecision Type_.
Proof. solve_decision. Defined.
#[global] Instance error_eq_dec : EqDecision error.
Proof. solve_decision. Defined.
#[global] Instance any_eq_dec : EqDecision any.
Proof. solve_decision. Defined.

End Go.

(** ** Data model *)

(** Modelled from the spec: the declaration of [TaskArg] is not in
    [worker.go]; it is "a single argument crossing the wire", a type-tag
    and a value, with the fields [Type] and [Value] the worker fills. *)
Record TaskArg := mkTaskArg { Type_ : string; Value : Go.any }.

(** Modelled from the spec: the declaration of [TaskSignature] is not in
    [worker.go]; the fields are the ones the worker reads ([Name],
    [Args], [Immutable], [OnSuccess], [OnError]) and the continuation
    lists hold signatures by value, as the data model describes them
    ("ordered sequence of TaskSignature"). *)
#[warnings="-register-all"]
Inductive TaskSignature := mkTaskSignature {
  Name : string;
  Args : list TaskArg;
  Immutable : bool;
  OnSuccess : list TaskSignature;
  OnError : list TaskSignature
}.

(** [TaskSignature{}]: the zero value [processMessage] starts from. *)
Definition zeroTaskSignature : TaskSignature :=
  mkTaskSignature "" [] false [] [].

(** [c.Args = args] on a local copy [c]. *)
Definition set_Args (c : TaskSignature) (args : list TaskArg) : TaskSignature :=
  mkTaskSignature (Name c) args (Immutable c) (OnSuccess c) (OnError c).

(** ** Observable behaviour: a trace of events and how the call ended *)

(** What a call does that can be seen from outside: the lines it logs
    (one constructor per [log.Printf] of the worker), the run of a
    handler, and the calls of [w.app.SendTask], the publish-back
    interface, whose return value the worker does not look at. *)
Inductive Event :=
| LogNotRegistered (name : string)
| LogStarted (name : string)
| LogFailed (name : string)
| LogError (e : Go.error)
| LogFinished (name : string)
| LogResult (v : Go.any)
| HandlerCall (args : list Go.any)
| SendTask (s : TaskSignature).

Inductive Result (A : Type) :=
| Ok (a : A)
| Panic (msg : string).
Arguments Ok {A} a.
Arguments Panic {A} msg.

(** A computation: the events it produced, then its result or the panic
    that stopped it. *)
Definition M (A : Type) : Type := list Event * Result A.

#[global] Instance M_ret : MRet M := fun A a => ([], Ok a).

#[global] Instance M_bind : MBind M := fun A B f m =>
  match m with
  | (tr, Ok a) => let '(tr', r) := f a in (tr ++ tr', r)
  | (tr, Panic msg) => (tr, Panic msg)
  end.

Definition emit (e : Event) : M unit := ([e], Ok tt).
Definition panic {A} (msg : string) : M A := ([], Panic msg).

(** [for _, x := range l { body x }] *)
Fixpoint range {A} (l : list A) (body : A → M unit) : M unit :=
  match l with
  | [] => mret tt
  | x :: l' => body x ;; range l' body
  end.

Definition trace {A} (m : M A) : list Event := fst m.
Definition outcome {A} (m : M A) : Result A := snd m.

(** The publish calls of a trace, in order. *)
Definition published (tr : list Event) : list TaskSignature :=
  omap (fun e => match e with SendTask s => Some s | _ => None end) tr.

(** The handler invocations of a trace, in order. *)
Definition invocations (tr : list Event) : list (list Go.any) :=
  omap (fun e => match e with HandlerCall a => Some a | _ => None end) tr.

(** ** [reflect] *)

Module reflect.

(** [reflect.Value]: the zero Value, or a value with its static type. *)
Inductive Value :=
| Zero
| V (t : Go.Type_) (v : Go.any).

(** [v.Type()] panics on the zero Value. *)
Definition Type_ (v : Value) : M Go.Type_ :=
  match v with
  | Zero => panic "reflect: call of reflect.Value.Type on zero Value"
  | V t _ => mret t
  end.

(** [v.Interface()] panics on the zero Value. *)
Definition Interface (v : Value) : M Go.any :=
  match v with
  | Zero => panic "reflect: call of reflect.Value.Interface on zero Value"
  | V _ x => mret x
  end.

(** [v.IsNil()]: defined on chan, func, interface, map, pointer and
    slice Values, a panic on the others. *)
Definition IsNil (v : Value) : M bool :=
  match v with
  | Zero => panic "reflect: call of reflect.Value.IsNil on zero Value"
  | V t x =>
      match Go.Type_Kind t with
      | Go.Chan | Go.Func | Go.Interface | Go.Map | Go.Ptr | Go.Slice =>
          mret (match x with Go.nil => true | _ => false end)
      | _ => panic "reflect: call of reflect.Value.IsNil on non-nilable Value"
      end
  end.

(** [v.String()]: the string itself for a Value of kind String; for any
    other kind it does not panic and does not call [Error()] or
    [String()] on the value: it prints the type between angle
    brackets. *)
Definition String (v : Value) : string :=
  match v with
  | Zero => "<invalid Value>"
  | V t x =>
      match Go.Type_Kind t, x with
      | Go.String, Go.string_ s => s
      | _, _ => "<" +:+ Go.Type_String t +:+ " Value>"
      end
  end.

(** [reflect.TypeOf(err)] for a non-nil [err]: its dynamic type. *)
Definition TypeOf (err : Go.error) : Go.Type_ := Go.err_Type err.

(** [reflect.ValueOf(err).Interface()]: the error value itself, boxed. *)
Definition ValueOf_Interface (err : Go.error) : Go.any := Go.error_ err.

(** [xt.AssignableTo(targ)] on the types at hand: identical types, or
    the target is the empty interface. *)
Definition AssignableTo (xt targ : Go.Type_) : bool :=
  bool_decide (xt = targ) || bool_decide (targ = Go.t_any).

End reflect.

(** Modelled from the spec: the registry and the tasks put in it are
    outside [worker.go]; a registered handler is "a callable accepting a
    fixed ordered parameter list of concrete types and returning exactly
    one result value plus an error/no-error outcome", that is a Go
    [func(p1, ..., pn) (T, error)]. *)
Record Task := mkTask {
  task_In : list Go.Type_;
  task_Out : Go.Type_;
  task_Func : list Go.any → Go.any * option Go.error
}.

Module reflect_call.

(** No argument may be the zero Value. *)
Fixpoint check_valid (ins : list reflect.Value) : M unit :=
  match ins with
  | [] => mret tt
  | reflect.Zero :: _ => panic "reflect: Call using zero Value argument"
  | reflect.V _ _ :: ins' => check_valid ins'
  end.

(** Each argument must be assignable to its parameter. *)
Fixpoint check_types (ins : list reflect.Value) (params : list Go.Type_) : M unit :=
  match ins, params with
  | reflect.V xt _ :: ins', targ :: params' =>
      if reflect.AssignableTo xt targ then check_types ins' params'
      else panic ("reflect: Call using " +:+ Go.Type_String xt
                  +:+ " as type " +:+ Go.Type_String targ)
  | _, _ => mret tt
  end.

Definition unbox (v : reflect.Value) : Go.any :=
  match v with reflect.Zero => Go.nil | reflect.V _ x => x end.

(** [reflect.ValueOf(task).Call(in)] on a function that is not variadic:
    the arity is compared first, then the arguments are looked at for a
    zero Value, then each argument's type is compared with its
    parameter; only then the function runs. Its two results come back as
    Values of the declared result types. *)
Definition Call (task : Task) (ins : list reflect.Value) : M (list reflect.Value) :=
  if (length ins <? length (task_In task))%nat then
    panic "reflect: Call with too few input arguments"
  else if (length (task_In task) <? length ins)%nat then
    panic "reflect: Call with too many input arguments"
  else
    check_valid ins ;;
    check_types ins (task_In task) ;;
    let args := map unbox ins in
    emit (HandlerCall args) ;;
    let '(r, e) := task_Func task args in
    mret [reflect.V (task_Out task) r;
         reflect.V Go.t_error (match e with
                               | Some e => Go.error_ e
                               | None => Go.nil
                               end)].

End reflect_call.

(** [results[i]] *)
Definition index {A} (l : list A) (i : nat) : M A :=
  match l !! i with
  | Some x => mret x
  | None => panic "runtime error: index out of range"
  end.

(** ** [finalize]: success and error callbacks *)

Definition finalize (s : TaskSignature) (result : reflect.Value)
    (err : option Go.error) : M unit :=
  match err with
  | Some err =>
      emit (LogFailed (Name s)) ;;
      emit (LogError err) ;;
      range (OnError s) (fun errorTask =>
        (* Pass error as a first argument to error callbacks *)
        let args :=
          [mkTaskArg (Go.Type_String (reflect.TypeOf err))
                     (reflect.ValueOf_Interface err)] ++ Args errorTask in
        let errorTask := set_Args errorTask args in
        emit (SendTask errorTask))
  | None =>
      emit (LogFinished (Name s)) ;;
      v ← reflect.Interface result;
      emit (LogResult v) ;;
      range (OnSuccess s) (fun successTask =>
        successTask ←
          (if bool_decide (Immutable s = false) then
             (* Pass results of the task to success callbacks *)
             (t ← reflect.Type_ result;
              v ← reflect.Interface result;
              let args := [mkTaskArg (Go.Type_String t) v] ++ Args successTask in
              mret (set_Args successTask args))
           else mret successTask);
        emit (SendTask successTask))
  end.

(** ** [processMessage] *)

Section Worker.

(** The delivery body, [d.Body]. *)
Context {Body : Type}.

(** [json.Unmarshal(body, &s)]: what it leaves in [s] and the error it
    returns. The decoder belongs to Go's standard library. *)
Variable json_Unmarshal : Body → TaskSignature → TaskSignature * option Go.error.

(** [ReflectArgs(args)]: the reflected arguments and the error. The
    function lives in another file of the package. *)
Variable ReflectArgs : list TaskArg → list reflect.Value * option Go.error.

(** The tasks registered against the app, [w.app]. *)
Variable registeredTasks : gmap string Task.

(** Modelled from the spec: [GetRegisteredTask] is a method of [App],
    outside [worker.go]; the registry is a read-only mapping with
    "lookup(name) -> RegisteredHandler | absent". *)
Definition GetRegisteredTask (name : string) : option Task :=
  registeredTasks !! name.

Definition processMessage (d : Body) : M unit :=
  let s := zeroTaskSignature in
  let '(s, _) := json_Unmarshal d s in
  match GetRegisteredTask (Name s) with
  | None => emit (LogNotRegistered (Name s))
  | Some task =>
      (* Everything seems fine, process the task! *)
      emit (LogStarted (Name s)) ;;
      let reflectedTask := task in
      let '(relfectedArgs, err) := ReflectArgs (Args s) in
      match err with
      | Some err => finalize s reflect.Zero (Some err)
      | None =>
          results ← reflect_call.Call reflectedTask relfectedArgs;
          r1 ← index results 1;
          isNil ← reflect.IsNil r1;
          if negb isNil then
            finalize s reflect.Zero
              (Some (Go.errors_New (reflect.String r1)))
          else
            (* Trigger success or error tasks *)
            r0 ← index results 0;
            finalize s r0 err
      end
  end.

End Worker.

(** ** Notions the properties are stated with *)

(** The argument [finalize] builds from the error. *)
Definition errorArg (err : Go.error) : TaskArg :=
  mkTaskArg (Go.Type_String (reflect.TypeOf err)) (reflect.ValueOf_Interface err).

(** The argument [finalize] builds from a result of type [t]. *)
Definition resultArg (t : Go.Type_) (v : Go.any) : TaskArg :=
  mkTaskArg (Go.Type_String t) v.

(** A continuation with one more argument in front. *)
Definition prepend (a : TaskArg) (c : TaskSignature) : TaskSignature :=
  set_Args c (a :: Args c).

(** The same signature with other continuation lists. *)
Definition set_OnSuccess (s : TaskSignature) (l : list TaskSignature) : TaskSignature :=
  mkTaskSignature (Name s) (Args s) (Immutable s) l (OnError s).

Definition set_OnError (s : TaskSignature) (l : list TaskSignature) : TaskSignature :=
  mkTaskSignature (Name s) (Args s) (Immutable s) (OnSuccess s) l.

Definition set_Immutable (s : TaskSignature) (b : bool) : TaskSignature :=
  mkTaskSignature (Name s) (Args s) b (OnSuccess s) (OnError s).

(** The decoded argument count and types agree with the declared
    parameter list: as many arguments as parameters, each a valid Value
    assignable to its parameter. *)
Fixpoint args_match (ins : list reflect.Value) (params : list Go.Type_) : bool :=
  match ins, params with
  | [], [] => true
  | reflect.V xt _ :: ins', targ :: params' =>
      reflect.AssignableTo xt targ && args_match ins' params'
  | _, _ => false
  end.

(** ** [finalize] over Go's memory

    A slice is a header (pointer, length, capacity) over a backing array,
    and copying a struct copies the headers in it, not the arrays. The
    model below keeps the argument arrays in a heap, so that two
    signatures can be told to share an argument list or not. The loop
    variable of [range] is a copy of the list element, and [SendTask]
    receives what the loop variable holds. *)

Module Mem.

Definition loc := positive.

(** A [[]TaskArg] header; [ptr] is [None] for the nil slice. *)
Record slice := mkSlice { ptr : option loc; len : nat; cap : nat }.

(** Modelled from the spec: [TaskSignature] again, whose declaration is
    not in [worker.go], with its argument list behind a header; the
    continuation lists hold signatures by value, as above. *)
#[warnings="-register-all"]
Inductive Sig := mkSig {
  Name : string;
  Args : slice;
  Immutable : bool;
  OnSuccess : list Sig;
  OnError : list Sig
}.

(** [c.Args = args] on a local copy [c]. *)
Definition set_Args (c : Sig) (args : slice) : Sig :=
  mkSig (Name c) args (Immutable c) (OnSuccess c) (OnError c).

Inductive Event :=
| LogFailed (name : string)
| LogError (e : Go.error)
| LogFinished (name : string)
| LogResult (v : Go.any)
| SendTask (s : Sig).

(** The backing arrays, by address. *)
Abbreviation heap := (gmap loc (list TaskArg)).

(** A computation over the heap: the heap it leaves, the events it
    produced, its result or panic. *)
Definition St (A : Type) : Type := heap → heap * list Event * Result A.

#[global] Instance St_ret : MRet St := fun A a h => (h, [], Ok a).

#[global] Instance St_bind : MBind St := fun A B f m h =>
  match m h with
  | (h1, tr, Ok a) => let '(h2, tr', r) := f a h1 in (h2, tr ++ tr', r)
  | (h1, tr, Panic msg) => (h1, tr, Panic msg)
  end.

Definition emit (e : Event) : St unit := fun h => (h, [e], Ok tt).
Definition panic {A} (msg : string) : St A := fun h => (h, [], Panic msg).

(** A call into [reflect]: no event, no memory effect. *)
Definition pure_ {A} (m : M A) : St A := fun h => (h, [], outcome m).

(** A new array at an address not in use. *)
Definition alloc (arr : list TaskArg) : St loc := fun h =>
  let l := fresh (dom h) in (<[l := arr]> h, [], Ok l).

Definition load_array (l : loc) : St (list TaskArg) := fun h =>
  match h !! l with
  | Some arr => (h, [], Ok arr)
  | None => (h, [], Panic "invalid memory address")
  end.

Definition store_array (l : loc) (arr : list TaskArg) : St unit := fun h =>
  (<[l := arr]> h, [], Ok tt).

(** The elements a slice shows: the first [len] cells of its array. *)
Definition elements (sl : slice) : St (list TaskArg) :=
  match ptr sl with
  | None => mret []
  | Some l => arr ← load_array l; mret (take (len sl) arr)
  end.

(** [[]TaskArg{x1, ..., xn}]: a new array of exactly these elements. *)
Definition slice_lit (xs : list TaskArg) : St slice :=
  l ← alloc xs; mret (mkSlice (Some l) (length xs) (length xs)).

(** [append(sl, elems...)]: in place while the capacity allows, else into
    a new array that receives a copy of the old elements. The spare
    capacity the runtime may add to a new array is left out. *)
Definition append (sl : slice) (elems : list TaskArg) : St slice :=
  let n := (len sl + length elems)%nat in
  if (n <=? cap sl)%nat then
    match ptr sl with
    | None => mret sl
    | Some l =>
        arr ← load_array l;
        store_array l (take (len sl) arr ++ elems ++ drop n arr);;
        mret (mkSlice (Some l) n (cap sl))
    end
  else
    old ← elements sl;
    l ← alloc (old ++ elems);
    mret (mkSlice (Some l) n n).

(** [for _, x := range l { body x }] *)
Fixpoint range {A} (l : list A) (body : A → St unit) : St unit :=
  match l with
  | [] => mret tt
  | x :: l' => body x;; range l' body
  end.

Definition finalize (s : Sig) (result : reflect.Value)
    (err : option Go.error) : St unit :=
  match err with
  | Some err =>
      emit (LogFailed (Name s));;
      emit (LogError err);;
      range (OnError s) (fun errorTask =>
        (* Pass error as a first argument to error callbacks *)
        lit ← slice_lit [mkTaskArg (Go.Type_String (reflect.TypeOf err))
                                   (reflect.ValueOf_Interface err)];
        rest ← elements (Args errorTask);
        args ← append lit rest;
        let errorTask := set_Args errorTask args in
        emit (SendTask errorTask))
  | None =>
      emit (LogFinished (Name s));;
      v ← pure_ (reflect.Interface result);
      emit (LogResult v);;
      range (OnSuccess s) (fun successTask =>
        successTask ←
          (if bool_decide (Immutable s = false) then
             (* Pass results of the task to success callbacks *)
             (t ← pure_ (reflect.Type_ result);
              v ← pure_ (reflect.Interface result);
              lit ← slice_lit [mkTaskArg (Go.Type_String t) v];
              rest ← elements (Args successTask);
              args ← append lit rest;
              mret (set_Args successTask args))
           else mret successTask);
        emit (SendTask successTask))
  end.

(** The publish calls of a trace, in order. *)
Definition published (tr : list Event) : list Sig :=
  omap (fun e => match e with SendTask s => Some s | _ => None end) tr.

(** A header is backed: its array is in the heap and long enough. *)
Definition slice_ok (h : heap) (sl : slice) : bool :=
  match ptr sl with
  | None => (len sl =? 0)%nat
  | Some l =>
      match h !! l with
      | Some arr => (len sl <=? length arr)%nat
      | None => false
      end
  end.

(** Every argument list of a signature, nested ones included, is backed. *)
Fixpoint wf (h : heap) (m : Sig) : bool :=
  slice_ok h (Args m) && forallb (wf h) (OnSuccess m) && forallb (wf h) (OnError m).

(** What a slice shows in a given heap. *)
Definition read (h : heap) (sl : slice) : list TaskArg :=
  match ptr sl with
  | None => []
  | Some l => take (len sl) (default [] (h !! l))
  end.

End Mem.

(** The signature a memory-level signature stands for in heap [h]. *)
Fixpoint view (h : Mem.heap) (m : Mem.Sig) : TaskSignature :=
  mkTaskSignature (Mem.Name m) (Mem.read h (Mem.Args m)) (Mem.Immutable m)
    (map (view h) (Mem.OnSuccess m)) (map (view h) (Mem.OnError m)).

Definition view_event (h : Mem.heap) (e : Mem.Event) : Event :=
  match e with
  | Mem.LogFailed n => LogFailed n
  | Mem.LogError e => LogError e
  | Mem.LogFinished n => LogFinished n
  | Mem.LogResult v => LogResult v
  | Mem.SendTask s => SendTask (view h s)
  end.

(** The addresses of the argument lists handed to [SendTask]. *)
Definition published_ptrs (tr : list Mem.Event) : list (option Mem.loc) :=
  map (fun p => Mem.ptr (Mem.Args p)) (Mem.published tr).

(** One turn of a loop that publishes its element with [x] in front. *)
Definition prepends (x : TaskArg) (body : Mem.Sig → Mem.St unit) : Prop :=
  ∀ c h, Mem.slice_ok h (Mem.Args c) = true →
    ∃ h' l,
      body c h =
      (h', [Mem.SendTask (Mem.set_Args c
              (Mem.mkSlice (Some l) (S (length (Mem.read h (Mem.Args c))))
                                    (S (length (Mem.read h (Mem.Args c))))))], Ok tt)
      ∧ h ⊆ h' ∧ h !! l = None ∧ h' !! l = Some (x :: Mem.read h (Mem.Args c)).

(** ** Concrete deliveries, decoders and tasks *)

Module Sample.

(** A delivery, described by what [json.Unmarshal] makes of its body:
    the signature left in [s] and the error returned. A body that is not
    JSON at all leaves [s] untouched and returns a syntax error; a body
    in which one field has the wrong JSON type fills the other fields
    and returns an [*json.UnmarshalTypeError] for that field. *)
Record Delivery := mkDelivery {
  decoded : TaskSignature;
  decodeError : option Go.error
}.

Definition json_Unmarshal (d : Delivery) (s : TaskSignature)
    : TaskSignature * option Go.error :=
  (decoded d, decodeError d).

Definition SyntaxError : Go.error :=
  Go.mkError (Go.mkType "*json.SyntaxError" Go.Ptr)
    "invalid character 'x' looking for beginning of value".

Definition UnmarshalTypeError : Go.error :=
  Go.mkError (Go.mkType "*json.UnmarshalTypeError" Go.Ptr)
    "json: cannot unmarshal string into Go struct field TaskSignature.Immutable of type bool".

(** Modelled from the spec: [ReflectArgs] is in another file of the
    package. "Converts the wire representation into a natively-typed
    value matching [type]. Fails with [DecodeError] when the declared
    type is unknown to the runtime or the encoded value cannot be parsed
    as that type"; "a failure on any single argument aborts invocation
    for the whole signature". *)
Definition ReflectValue (a : TaskArg) : reflect.Value + Go.error :=
  match Value a with
  | Go.int64_ z =>
      if bool_decide (Type_ a = "int64") then inl (reflect.V Go.t_int64 (Go.int64_ z))
      else inr (Go.errors_New ("cannot decode a number as " +:+ Type_ a))
  | Go.string_ x =>
      if bool_decide (Type_ a = "string") then inl (reflect.V Go.t_string (Go.string_ x))
      else inr (Go.errors_New ("cannot decode a string as " +:+ Type_ a))
  | Go.bool_ b =>
      if bool_decide (Type_ a = "bool") then inl (reflect.V Go.t_bool (Go.bool_ b))
      else inr (Go.errors_New ("cannot decode a boolean as " +:+ Type_ a))
  | _ => inr (Go.errors_New ("cannot decode as " +:+ Type_ a))
  end.

Fixpoint ReflectArgs (args : list TaskArg) : list reflect.Value * option Go.error :=
  match args with
  | [] => ([], None)
  | a :: args' =>
      match ReflectValue a with
      | inr e => ([], Some e)
      | inl v =>
          match ReflectArgs args' with
          | (vs, None) => (v :: vs, None)
          | (_, Some e) => ([], Some e)
          end
      end
  end.

(** int64 addition wraps around. *)
Definition wrap64 (z : Z) : Z := ((z + 2 ^ 63) mod 2 ^ 64 - 2 ^ 63)%Z.

(** [func add(a, b int64) (int64, error) { return a + b, nil }] *)
Definition add : Task :=
  mkTask [Go.t_int64; Go.t_int64] Go.t_int64
    (fun args =>
       match args with
       | [Go.int64_ a; Go.int64_ b] => (Go.int64_ (wrap64 (a + b)), None)
       | _ => (Go.int64_ 0, None)
       end).

(** [func save(path string) (string, error) {
       return "", errors.New("disk full") }] *)
Definition save : Task :=
  mkTask [Go.t_string] Go.t_string
    (fun _ => (Go.string_ EmptyString, Some (Go.errors_New "disk full"))).

Definition registeredTasks : gmap string Task :=
  <["add" := add]> (<["save" := save]> ∅).

Definition int64Arg (z : Z) : TaskArg := mkTaskArg "int64" (Go.int64_ z).
Definition stringArg (x : string) : TaskArg := mkTaskArg "string" (Go.string_ x).

Definition log_ : TaskSignature := mkTaskSignature "log" [] false [] [].
Definition alert : TaskSignature :=
  mkTaskSignature "alert" [stringArg "pager"] false [] [].

(** Scenario A: [add(2, 3)] with a success callback. *)
Definition scenarioA : TaskSignature :=
  mkTaskSignature "add" [int64Arg 2; int64Arg 3] false [log_] [].

(** Scenario B: the same, immutable. *)
Definition scenarioB : TaskSignature :=
  mkTaskSignature "add" [int64Arg 2; int64Arg 3] true [log_] [].

(** Scenario C: nothing is registered as "ghost". *)
Definition scenarioC : TaskSignature :=
  mkTaskSignature "ghost" [] false [log_] [alert].

(** Scenario D: the handler returns the error "disk full". *)
Definition scenarioD : TaskSignature :=
  mkTaskSignature "save" [stringArg "/tmp/out"] false [log_] [alert].

(** An argument tagged int64 whose value is a string. *)
Definition badArg : TaskSignature :=
  mkTaskSignature "add" [mkTaskArg "int64" (Go.string_ "abc"); int64Arg 3]
    false [log_] [alert].

(** One argument for a task of two parameters. *)
Definition tooFew : TaskSignature :=
  mkTaskSignature "add" [int64Arg 2] false [log_] [alert].

(** A string for an int64 parameter. *)
Definition wrongType : TaskSignature :=
  mkTaskSignature "add" [int64Arg 2; stringArg "3"] false [log_] [alert].

Definition delivery (s : TaskSignature) : Delivery := mkDelivery s None.

(** A body that is not JSON: nothing is decoded. *)
Definition garbage : Delivery := mkDelivery zeroTaskSignature (Some SyntaxError).

(** Scenario A's body with the string "yes" for [Immutable]: [Name],
    [Args] and [OnSuccess] are filled, [Immutable] keeps its zero value
    and the decoder returns a type error. *)
Definition badFlag : Delivery := mkDelivery scenarioA (Some UnmarshalTypeError).

Definition run (d : Delivery) : M unit :=
  processMessage json_Unmarshal ReflectArgs registeredTasks d.

(** Memory: the argument list of [alert] is an array at address 1, and
    the origin signature keeps [alert] in both of its lists. *)
Definition heap0 : Mem.heap := {[ 1%positive := [stringArg "pager"] ]}.

Definition mem_alert : Mem.Sig :=
  Mem.mkSig "alert" (Mem.mkSlice (Some 1%positive) 1 1) false [] [].

Definition mem_origin (immutable : bool) : Mem.Sig :=
  Mem.mkSig "add" (Mem.mkSlice None 0 0) immutable [mem_alert] [mem_alert].

Definition five : reflect.Value := reflect.V Go.t_int64 (Go.int64_ 5).

(** [finalize] called twice on the same signature and outcome, the second
    call on the memory the first one left. *)
Definition first_run (immutable : bool) : Mem.heap * list Mem.Event * Result unit :=
  Mem.finalize (mem_origin immutable) five None heap0.

Definition second_run (immutable : bool) : Mem.heap * list Mem.Event * Result unit :=
  Mem.finalize (mem_origin immutable) five None (first_run immutable).1.1.

End Sample.

(** ** [Launch] *)

(** The settings [Launch] prints, the fields it reads from
    [w.app.GetConfig()]; the declaration of the configuration is outside
    [worker.go]. *)
Record Config := mkConfig {
  BrokerURL : string;
  Exchange : string;
  ExchangeType : string;
  DefaultQueue : string;
  BindingKey : string
}.

(** What [Launch] does that can be seen from outside: its log lines (the
    format and what fills it), the call of [conn.Open], what the worker
    does while the connection waits for messages, and the deferred
    [openConn.Close]. *)
Inductive LaunchEvent :=
| Printf (format : string) (args : list string)
| Open
| Worker (e : Event)
| Close.

Section Launch.

Context {Body : Type}.
Variable json_Unmarshal : Body → TaskSignature → TaskSignature * option Go.error.
Variable ReflectArgs : list TaskArg → list reflect.Value * option Go.error.
Variable registeredTasks : gmap string Task.

(** [conn.Open()]: the error it returns, if any. The connection belongs to
    another file of the package. *)
Variable conn_Open : option Go.error.

(** [openConn.WaitForMessages(w)]: what the open connection does with the
    worker it is given, that is with [w.processMessage], until it returns
    or panics. *)
Variable WaitForMessages : (Body → M unit) → M unit.

Definition Launch (cnf : Config) : list LaunchEvent * Result (option Go.error) :=
  let settings :=
    [Printf "Launching a worker with the following settings:" [];
     Printf "- BrokerURL: %s" [BrokerURL cnf];
     Printf "- Exchange: %s" [Exchange cnf];
     Printf "- ExchangeType: %s" [ExchangeType cnf];
     Printf "- DefaultQueue: %s" [DefaultQueue cnf];
     Printf "- BindingKey: %s" [BindingKey cnf]] in
  match conn_Open with
  | Some err => (settings ++ [Open], Ok (Some err))
  | None =>
      (* defer openConn.Close() *)
      let '(tr, r) :=
        WaitForMessages (processMessage json_Unmarshal ReflectArgs registeredTasks) in
      (settings ++ [Open] ++ map Worker tr ++ [Close],
       match r with
       | Ok _ => Ok None
       | Panic msg => Panic msg
       end)
  end.

End Launch.

(** The events of the worker inside a trace of [Launch]. *)
Definition worker_events (tr : list LaunchEvent) : list Event :=
  omap (fun e => match e with Worker e => Some e | _ => None end) tr.

(** How many times the connection is closed. *)
Definition closes (tr : list LaunchEvent) : nat :=
  length (omap (fun e => match e with Close => Some tt | _ => None end) tr).

(** * Properties *)

(** ** Traces *)

Section Traces.

Lemma bind_Ok {A B} (tr : list Event) (a : A) (f : A → M B) :
  ((tr, Ok a) ≫= f) = (tr ++ trace (f a), outcome (f a)).
Proof. unfold mbind, M_bind, trace, outcome. by destruct (f a). Qed.

Lemma bind_Panic {A B} (tr : list Event) msg (f : A → M B) :
  ((tr, Panic msg) ≫= f) = (tr, Panic msg).
Proof. reflexivity. Qed.

Lemma range_ext {A} (l : list A) (f g : A → M unit) :
  (∀ x, f x = g x) → range l f = range l g.
Proof. intros Hfg. induction l as [|x l IH]; simpl; [done|]. by rewrite Hfg, IH. Qed.

Lemma range_emit {A} (l : list A) (f : A → Event) :
  range l (fun x => emit (f x)) = (map f l, Ok tt).
Proof.
  induction l as [|x l IH]; simpl; [done|].
  by rewrite IH.
Qed.

Lemma published_app tr1 tr2 :
  published (tr1 ++ tr2) = published tr1 ++ published tr2.
Proof. apply omap_app. Qed.

Lemma invocations_app tr1 tr2 :
  invocations (tr1 ++ tr2) = invocations tr1 ++ invocations tr2.
Proof. apply omap_app. Qed.

Lemma published_SendTask (f : TaskSignature → TaskSignature) l :
  published (map (fun c => SendTask (f c)) l) = map f l.
Proof. induction l as [|c l IH]; simpl; [done|]. unfold published in *. simpl. by rewrite IH. Qed.

Lemma invocations_SendTask (f : TaskSignature → TaskSignature) l :
  invocations (map (fun c => SendTask (f c)) l) = [].
Proof. induction l as [|c l IH]; simpl; [done|]. unfold invocations in *. simpl. by rewrite IH. Qed.

End Traces.

(** The failure branch, as one equation. *)
Lemma finalize_error s result err :
  finalize s result (Some err) =
  ([LogFailed (Name s); LogError err]
     ++ map (fun c => SendTask (prepend (errorArg err) c)) (OnError s), Ok tt).
Proof.
  unfold finalize.
  rewrite range_emit with (f := fun c => SendTask (prepend (errorArg err) c)).
  reflexivity.
Qed.

(** The success branch on a valid result, as one equation. *)
Lemma finalize_success s t v :
  finalize s (reflect.V t v) None =
  ([LogFinished (Name s); LogResult v]
     ++ map (fun c => SendTask (if Immutable s then c else prepend (resultArg t v) c))
          (OnSuccess s), Ok tt).
Proof.
  unfold finalize.
  rewrite range_ext with
    (g := fun c => emit (SendTask (if Immutable s then c else prepend (resultArg t v) c))).
  - rewrite range_emit. reflexivity.
  - intros c. by destruct (Immutable s).
Qed.

(** The success branch on the zero Value stops at [result.Interface()]. *)
Lemma finalize_success_Zero s :
  finalize s reflect.Zero None =
  ([LogFinished (Name s)],
   Panic "reflect: call of reflect.Value.Interface on zero Value").
Proof. reflexivity. Qed.

(** ** [reflect.Value.Call] *)

Section Call.

Lemma args_match_length ins params :
  args_match ins params = true → length ins = length params.
Proof.
  revert params. induction ins as [|[|xt x] ins IH]; intros [|targ params]; simpl; try done.
  intros [_ H]%andb_true_iff. by rewrite (IH _ H).
Qed.

Lemma check_valid_match ins params :
  args_match ins params = true → reflect_call.check_valid ins = (([], Ok tt) : M unit).
Proof.
  revert params. induction ins as [|[|xt x] ins IH]; intros [|targ params]; simpl; try done.
  intros [_ H]%andb_true_iff. by eapply IH.
Qed.

Lemma check_types_match ins params :
  args_match ins params = true →
  reflect_call.check_types ins params = (([], Ok tt) : M unit).
Proof.
  revert params. induction ins as [|[|xt x] ins IH]; intros [|targ params]; simpl; try done.
  intros [-> H]%andb_true_iff. by apply IH.
Qed.

Lemma check_valid_cases ins :
  reflect_call.check_valid ins = (([], Ok tt) : M unit)
  ∨ ∃ msg, reflect_call.check_valid ins = (([], Panic msg) : M unit).
Proof. induction ins as [|[|xt x] ins IH]; simpl; eauto. Qed.

Lemma check_types_mismatch ins params :
  length ins = length params → args_match ins params = false →
  reflect_call.check_valid ins = (([], Ok tt) : M unit) →
  ∃ msg, reflect_call.check_types ins params = (([], Panic msg) : M unit).
Proof.
  revert params. induction ins as [|[|xt x] ins IH]; intros [|targ params]; simpl; try done.
  intros [= Hlen] Hmis Hvalid.
  destruct (reflect.AssignableTo xt targ); simpl in Hmis; eauto.
Qed.

Lemma check_mismatch ins params :
  length ins = length params → args_match ins params = false →
  ∃ msg, (reflect_call.check_valid ins ;; reflect_call.check_types ins params)
         = (([], Panic msg) : M unit).
Proof.
  intros Hlen Hmis. destruct (check_valid_cases ins) as [Hvalid|[msg Hvalid]].
  - destruct (check_types_mismatch ins params Hlen Hmis Hvalid) as [msg Htypes].
    exists msg. by rewrite Hvalid, bind_Ok, Htypes.
  - exists msg. by rewrite Hvalid.
Qed.

(** When the arguments fit, the function runs, once. *)
Lemma Call_match task ins :
  args_match ins (task_In task) = true →
  reflect_call.Call task ins =
  ([HandlerCall (map reflect_call.unbox ins)],
   Ok [reflect.V (task_Out task) (task_Func task (map reflect_call.unbox ins)).1;
       reflect.V Go.t_error
         (match (task_Func task (map reflect_call.unbox ins)).2 with
          | Some e => Go.error_ e
          | None => Go.nil
          end)]).
Proof.
  intros H. unfold reflect_call.Call.
  rewrite (args_match_length _ _ H), Nat.ltb_irrefl.
  rewrite (check_valid_match _ _ H), (check_types_match _ _ H).
  by destruct (task_Func task (map reflect_call.unbox ins)).
Qed.

(** When they do not, [Call] panics before the function runs. *)
Lemma Call_mismatch task ins :
  args_match ins (task_In task) = false →
  ∃ msg, reflect_call.Call task ins = ([], Panic msg).
Proof.
  intros H. unfold reflect_call.Call.
  destruct (Nat.ltb_spec (length ins) (length (task_In task))); [eauto|].
  destruct (Nat.ltb_spec (length (task_In task)) (length ins)); [eauto|].
  destruct (check_valid_cases ins) as [Hvalid|[msg Hvalid]].
  - destruct (check_types_mismatch ins (task_In task)) as [msg Htypes]; [lia|done|done|].
    exists msg. by rewrite Hvalid, bind_Ok, Htypes.
  - exists msg. by rewrite Hvalid.
Qed.

End Call.

(** ** [processMessage], path by path *)

Section Paths.

Context {Body : Type}.
Variable json_Unmarshal : Body → TaskSignature → TaskSignature * option Go.error.
Variable ReflectArgs : list TaskArg → list reflect.Value * option Go.error.
Variable registeredTasks : gmap string Task.

Local Abbreviation process := (processMessage json_Unmarshal ReflectArgs registeredTasks).

Variables (d : Body) (s : TaskSignature) (derr : option Go.error).
Hypothesis Hdecoded : json_Unmarshal d zeroTaskSignature = (s, derr).

Lemma process_not_registered :
  registeredTasks !! Name s = None →
  process d = ([LogNotRegistered (Name s)], Ok tt).
Proof.
  intros Hreg. unfold processMessage, GetRegisteredTask.
  by rewrite Hdecoded, Hreg.
Qed.

Variable task : Task.
Hypothesis Hregistered : registeredTasks !! Name s = Some task.

Lemma process_ReflectArgs_error ins err :
  ReflectArgs (Args s) = (ins, Some err) →
  process d =
  ([LogStarted (Name s); LogFailed (Name s); LogError err]
     ++ map (fun c => SendTask (prepend (errorArg err) c)) (OnError s), Ok tt).
Proof.
  intros Hargs. unfold processMessage, GetRegisteredTask.
  rewrite Hdecoded, Hregistered, Hargs, finalize_error. reflexivity.
Qed.

Lemma process_Call_panic ins :
  ReflectArgs (Args s) = (ins, None) →
  args_match ins (task_In task) = false →
  ∃ msg, process d = ([LogStarted (Name s)], Panic msg).
Proof.
  intros Hargs Hmis. unfold processMessage, GetRegisteredTask.
  rewrite Hdecoded, Hregistered, Hargs.
  destruct (Call_mismatch task ins Hmis) as [msg ->]. eauto.
Qed.

Lemma process_handler_error ins r e :
  ReflectArgs (Args s) = (ins, None) →
  args_match ins (task_In task) = true →
  task_Func task (map reflect_call.unbox ins) = (r, Some e) →
  process d =
  ([LogStarted (Name s); HandlerCall (map reflect_call.unbox ins);
    LogFailed (Name s); LogError (Go.errors_New "<error Value>")]
     ++ map (fun c => SendTask (prepend (errorArg (Go.errors_New "<error Value>")) c))
          (OnError s), Ok tt).
Proof.
  intros Hargs Hok Hrun. unfold processMessage, GetRegisteredTask.
  rewrite Hdecoded, Hregistered, Hargs, (Call_match _ _ Hok), Hrun.
  cbn [snd fst]. rewrite bind_Ok. cbn -[finalize].
  rewrite finalize_error. reflexivity.
Qed.

Lemma process_handler_success ins r :
  ReflectArgs (Args s) = (ins, None) →
  args_match ins (task_In task) = true →
  task_Func task (map reflect_call.unbox ins) = (r, None) →
  process d =
  ([LogStarted (Name s); HandlerCall (map reflect_call.unbox ins);
    LogFinished (Name s); LogResult r]
     ++ map (fun c => SendTask (if Immutable s then c
                                else prepend (resultArg (task_Out task) r) c))
          (OnSuccess s), Ok tt).
Proof.
  intros Hargs Hok Hrun. unfold processMessage, GetRegisteredTask.
  rewrite Hdecoded, Hregistered, Hargs, (Call_match _ _ Hok), Hrun.
  cbn [snd fst]. rewrite bind_Ok. cbn -[finalize].
  rewrite finalize_success. reflexivity.
Qed.

End Paths.

(** ** The memory-level [finalize] *)

Section MemFacts.

Implicit Types (h : Mem.heap) (m c p : Mem.Sig) (sl : Mem.slice).

(** Induction over a signature and the signatures nested in its lists. *)
Lemma Sig_nested_ind (P : Mem.Sig → Prop) :
  (∀ n a i ss es, Forall P ss → Forall P es → P (Mem.mkSig n a i ss es)) →
  ∀ m, P m.
Proof.
  intros step. fix IH 1. intros [n a i ss es]. apply step.
  - induction ss as [|c ss IHss]; constructor; [apply IH | exact IHss].
  - induction es as [|c es IHes]; constructor; [apply IH | exact IHes].
Qed.

Lemma slice_ok_mono h h' sl :
  h ⊆ h' → Mem.slice_ok h sl = true → Mem.slice_ok h' sl = true.
Proof.
  intros Hsub. unfold Mem.slice_ok. destruct (Mem.ptr sl) as [l|]; [|done].
  destruct (h !! l) as [arr|] eqn:Hl; [|done].
  by rewrite (lookup_weaken _ _ _ _ Hl Hsub).
Qed.

Lemma read_mono h h' sl :
  h ⊆ h' → Mem.slice_ok h sl = true → Mem.read h' sl = Mem.read h sl.
Proof.
  intros Hsub. unfold Mem.slice_ok, Mem.read. destruct (Mem.ptr sl) as [l|]; [|done].
  destruct (h !! l) as [arr|] eqn:Hl; [|done].
  by rewrite (lookup_weaken _ _ _ _ Hl Hsub).
Qed.

Lemma wf_unfold h m :
  Mem.wf h m = Mem.slice_ok h (Mem.Args m)
               && forallb (Mem.wf h) (Mem.OnSuccess m)
               && forallb (Mem.wf h) (Mem.OnError m).
Proof. by destruct m. Qed.

Lemma wf_mono h h' m : h ⊆ h' → Mem.wf h m = true → Mem.wf h' m = true.
Proof.
  intros Hsub. induction m as [n a i ss es IHs IHe] using Sig_nested_ind.
  rewrite !wf_unfold. cbn [Mem.Args Mem.OnSuccess Mem.OnError].
  rewrite !andb_true_iff, !forallb_forall.
  intros [[Ha Hs] He]. repeat split.
  - by eapply slice_ok_mono.
  - intros c Hc. rewrite Forall_forall in IHs. apply IHs; [by apply list_elem_of_In|auto].
  - intros c Hc. rewrite Forall_forall in IHe. apply IHe; [by apply list_elem_of_In|auto].
Qed.

Lemma view_mono h h' m : h ⊆ h' → Mem.wf h m = true → view h' m = view h m.
Proof.
  intros Hsub. induction m as [n a i ss es IHs IHe] using Sig_nested_ind.
  rewrite wf_unfold. cbn [Mem.Args Mem.OnSuccess Mem.OnError view Mem.Name Mem.Immutable].
  rewrite !andb_true_iff, !forallb_forall.
  intros [[Ha Hs] He]. f_equal.
  - by apply read_mono.
  - apply map_ext_in. intros c Hc. rewrite Forall_forall in IHs.
    apply IHs; [by apply list_elem_of_In|auto].
  - apply map_ext_in. intros c Hc. rewrite Forall_forall in IHe.
    apply IHe; [by apply list_elem_of_In|auto].
Qed.

Lemma Forall_wf_mono h h' (cs : list Mem.Sig) :
  h ⊆ h' → Forall (fun c => Mem.wf h c = true) cs → Forall (fun c => Mem.wf h' c = true) cs.
Proof.
  intros Hsub Hwf. eapply Forall_impl; [exact Hwf|].
  intros c. by apply wf_mono.
Qed.

Lemma map_view_mono h h' (cs : list Mem.Sig) :
  h ⊆ h' → Forall (fun c => Mem.wf h c = true) cs → map (view h') cs = map (view h) cs.
Proof.
  intros Hsub Hwf. induction Hwf as [|c cs Hc _ IH]; simpl; [done|].
  by rewrite IH, (view_mono h h' c).
Qed.

End MemFacts.

Section MemSteps.

Implicit Types (h : Mem.heap) (m c p : Mem.Sig) (sl : Mem.slice).

Lemma St_bind_Ok {A B} (m : Mem.St A) (k : A → Mem.St B) h h1 a :
  m h = (h1, [], Ok a) → (m ≫= k) h = k a h1.
Proof.
  intros Hm. unfold mbind, Mem.St_bind. rewrite Hm.
  by destruct (k a h1) as [[h2 tr] r].
Qed.

Lemma elements_read h sl :
  Mem.slice_ok h sl = true → Mem.elements sl h = (h, [], Ok (Mem.read h sl)).
Proof.
  unfold Mem.slice_ok, Mem.elements, Mem.read.
  destruct (Mem.ptr sl) as [l|]; [|done].
  destruct (h !! l) as [arr|] eqn:Hl; [|done]. intros _.
  erewrite St_bind_Ok; cycle 1.
  { unfold Mem.load_array. by rewrite Hl. }
  reflexivity.
Qed.

(** Building [append([]TaskArg{x}, sl...)]: the result is backed by an
    array that was not there before and holds [x] followed by what [sl]
    shows; no array that was there is written. *)
Lemma prepend_step {B} h (x : TaskArg) sl (k : Mem.slice → Mem.St B) :
  Mem.slice_ok h sl = true →
  ∃ h' l,
    (lit ← Mem.slice_lit [x]; rest ← Mem.elements sl;
     args ← Mem.append lit rest; k args) h
    = k (Mem.mkSlice (Some l) (S (length (Mem.read h sl))) (S (length (Mem.read h sl)))) h'
    ∧ h ⊆ h' ∧ h !! l = None ∧ h' !! l = Some (x :: Mem.read h sl).
Proof.
  intros Hok.
  set (l1 := fresh (dom h)).
  assert (Hl1 : h !! l1 = None) by (apply not_elem_of_dom, is_fresh).
  set (h1 := <[l1 := [x]]> h).
  assert (Hsub1 : h ⊆ h1) by (by apply insert_subseteq).
  assert (Hlit : Mem.slice_lit [x] h = (h1, [], Ok (Mem.mkSlice (Some l1) 1 1))).
  { unfold Mem.slice_lit. by erewrite St_bind_Ok. }
  rewrite (St_bind_Ok _ _ _ _ _ Hlit).
  rewrite (St_bind_Ok _ _ _ _ _ (elements_read h1 sl (slice_ok_mono _ _ _ Hsub1 Hok))).
  rewrite (read_mono _ _ _ Hsub1 Hok).
  destruct (Mem.read h sl) as [|y rest] eqn:Hrest.
  - exists h1, l1. split; [|split; [done|split; [done|]]].
    + apply St_bind_Ok.
      unfold Mem.append. cbn [Mem.len Mem.cap Mem.ptr length Nat.add Nat.leb].
      erewrite St_bind_Ok; cycle 1.
      { unfold Mem.load_array, h1. by rewrite lookup_insert_eq. }
      unfold mbind, Mem.St_bind, Mem.store_array. cbn.
      f_equal. f_equal. unfold h1. by rewrite insert_insert_eq.
    + unfold h1. by rewrite lookup_insert_eq.
  - set (l2 := fresh (dom h1)).
    assert (Hl2 : h1 !! l2 = None) by (apply not_elem_of_dom, is_fresh).
    set (h2 := <[l2 := x :: y :: rest]> h1).
    assert (Hsub2 : h1 ⊆ h2) by (by apply insert_subseteq).
    exists h2, l2. split; [|split; [by etrans|split]].
    + apply St_bind_Ok.
      unfold Mem.append. cbn [Mem.len Mem.cap Mem.ptr length Nat.add Nat.leb].
      assert (Hold : Mem.elements (Mem.mkSlice (Some l1) 1 1) h1 = (h1, [], Ok [x])).
      { unfold Mem.elements. cbn [Mem.ptr Mem.len].
        erewrite St_bind_Ok; cycle 1.
        { unfold Mem.load_array, h1. by rewrite lookup_insert_eq. }
        reflexivity. }
      rewrite (St_bind_Ok _ _ _ _ _ Hold).
      by erewrite St_bind_Ok.
    + destruct (h !! l2) as [arr|] eqn:Hl; [|done].
      by rewrite (lookup_weaken _ _ _ _ Hl Hsub1) in Hl2.
    + unfold h2. by rewrite lookup_insert_eq.
Qed.

End MemSteps.

Section MemRange.

Implicit Types (h : Mem.heap) (m c p : Mem.Sig) (sl : Mem.slice).

Lemma wf_parts h c :
  Mem.wf h c = true →
  Mem.slice_ok h (Mem.Args c) = true
  ∧ Forall (fun c' => Mem.wf h c' = true) (Mem.OnSuccess c)
  ∧ Forall (fun c' => Mem.wf h c' = true) (Mem.OnError c).
Proof.
  rewrite wf_unfold, !andb_true_iff, !forallb_forall, !Forall_forall.
  intros [[Ha Hs] He]. repeat split; [done| |]; intros c' Hc'.
  - by apply Hs, list_elem_of_In.
  - by apply He, list_elem_of_In.
Qed.

Lemma wf_intro h c :
  Mem.slice_ok h (Mem.Args c) = true →
  Forall (fun c' => Mem.wf h c' = true) (Mem.OnSuccess c) →
  Forall (fun c' => Mem.wf h c' = true) (Mem.OnError c) →
  Mem.wf h c = true.
Proof.
  rewrite wf_unfold, !andb_true_iff, !forallb_forall, !Forall_forall.
  intros Ha Hs He. repeat split; [done| |]; intros c' Hc'.
  - by apply Hs, list_elem_of_In.
  - by apply He, list_elem_of_In.
Qed.

(** The published copy: well formed, and it shows [x] followed by the
    template's arguments. *)
Lemma prepended_copy h h' l (x : TaskArg) c :
  Mem.wf h c = true → h ⊆ h' →
  h' !! l = Some (x :: Mem.read h (Mem.Args c)) →
  let p := Mem.set_Args c
             (Mem.mkSlice (Some l) (S (length (Mem.read h (Mem.Args c))))
                                   (S (length (Mem.read h (Mem.Args c))))) in
  Mem.wf h' p = true ∧ view h' p = prepend x (view h c).
Proof.
  intros Hwf Hsub Hl p. destruct (wf_parts _ _ Hwf) as (Ha & Hs & He). split.
  - apply wf_intro; cbn.
    + unfold Mem.slice_ok. cbn. rewrite Hl. cbn. apply Nat.leb_refl.
    + by eapply Forall_wf_mono.
    + by eapply Forall_wf_mono.
  - destruct c as [n a i ss es]. cbn in *. unfold prepend, set_Args. cbn.
    f_equal.
    + unfold Mem.read at 1. cbn. rewrite Hl. cbn. f_equal. apply firstn_all.
    + by apply map_view_mono.
    + by apply map_view_mono.
Qed.

Lemma range_prepends h (x : TaskArg) body (cs : list Mem.Sig) :
  prepends x body →
  Forall (fun c => Mem.wf h c = true) cs →
  ∃ h' ps,
    Mem.range cs body h = (h', map Mem.SendTask ps, Ok tt)
    ∧ h ⊆ h'
    ∧ map (view h') ps = map (fun c => prepend x (view h c)) cs
    ∧ Forall (fun p => Mem.wf h' p = true) ps
    ∧ NoDup (map (fun p => Mem.ptr (Mem.Args p)) ps)
    ∧ Forall (fun o => ∃ l, o = Some l ∧ h !! l = None ∧ is_Some (h' !! l))
        (map (fun p => Mem.ptr (Mem.Args p)) ps).
Proof.
  intros Hbody Hwf. revert h Hwf.
  induction cs as [|c cs IH]; intros h Hwf.
  - exists h, []. repeat split; try done; constructor.
  - apply Forall_cons in Hwf as [Hc Hcs].
    destruct (Hbody c h) as (h1 & l & Hrun & Hsub1 & Hfresh & Hl);
      [by apply wf_parts|].
    destruct (prepended_copy h h1 l x c Hc Hsub1 Hl) as [Hwfp Hview].
    destruct (IH h1 (Forall_wf_mono _ _ _ Hsub1 Hcs))
      as (h2 & ps & Hrest & Hsub2 & Hviews & Hwfs & Hnd & Hptrs).
    eexists h2, (_ :: ps). split; [|split; [by etrans|split; [|split; [|split]]]].
    + cbn [Mem.range]. unfold mbind, Mem.St_bind. rewrite Hrun, Hrest. reflexivity.
    + cbn [map]. f_equal.
      * by rewrite (view_mono _ _ _ Hsub2 Hwfp).
      * rewrite Hviews. apply map_ext_in. intros c' Hc'. f_equal.
        apply view_mono; [done|]. rewrite Forall_forall in Hcs.
        by apply Hcs, list_elem_of_In.
    + constructor; [by eapply wf_mono|done].
    + cbn. constructor; [|done]. intros Hin.
      destruct (proj1 (Forall_forall _ _) Hptrs _ Hin) as (l' & [= <-] & Hnone & _).
      by rewrite Hl in Hnone.
    + cbn. constructor.
      * exists l. split; [done|split; [done|]]. exists (x :: Mem.read h (Mem.Args c)).
        by eapply lookup_weaken.
      * eapply Forall_impl; [exact Hptrs|]. intros o (l' & -> & Hnone & Hsome).
        exists l'. split; [done|split; [|done]].
        destruct (h !! l') as [arr|] eqn:Hl'; [|done].
        by rewrite (lookup_weaken _ _ _ _ Hl' Hsub1) in Hnone.
Qed.

(** A loop that publishes its elements as they are. *)
Lemma range_SendTask h (cs : list Mem.Sig) :
  Mem.range cs (fun c => Mem.emit (Mem.SendTask c)) h = (h, map Mem.SendTask cs, Ok tt).
Proof.
  induction cs as [|c cs IH]; [done|].
  cbn [Mem.range]. unfold mbind, Mem.St_bind. cbn. by rewrite IH.
Qed.

Lemma Mem_range_ext {A} (l : list A) (f g : A → Mem.St unit) h :
  (∀ x h, f x h = g x h) → Mem.range l f h = Mem.range l g h.
Proof.
  intros Hfg. revert h. induction l as [|x l IH]; intros h; [done|].
  cbn [Mem.range]. unfold mbind, Mem.St_bind. rewrite Hfg.
  destruct (g x h) as [[h1 tr] [[]|msg]]; [|done]. by rewrite IH.
Qed.

End MemRange.

Section MemFinalize.

Implicit Types (h : Mem.heap) (m c p s : Mem.Sig) (sl : Mem.slice).

Lemma published_map_SendTask (ps : list Mem.Sig) :
  Mem.published (map Mem.SendTask ps) = ps.
Proof. induction ps as [|p ps IH]; [done|]. unfold Mem.published in *. cbn. by rewrite IH. Qed.

Lemma view_event_SendTask h (ps : list Mem.Sig) :
  map (view_event h) (map Mem.SendTask ps) = map SendTask (map (view h) ps).
Proof. by rewrite !map_map. Qed.

Lemma published_view_event h (tr : list Mem.Event) :
  published (map (view_event h) tr) = map (view h) (Mem.published tr).
Proof.
  induction tr as [|e tr IH]; [done|].
  unfold published, Mem.published in *. destruct e; cbn; by rewrite ?IH.
Qed.

Lemma emit_then {B} (e : Mem.Event) (k : unit → Mem.St B) h h' tr r :
  k tt h = (h', tr, r) → (Mem.emit e ≫= k) h = (h', e :: tr, r).
Proof. intros Hk. unfold mbind, Mem.St_bind, Mem.emit. by rewrite Hk. Qed.

Lemma error_body_prepends (err : Go.error) :
  prepends (errorArg err) (fun errorTask =>
    lit ← Mem.slice_lit [mkTaskArg (Go.Type_String (reflect.TypeOf err))
                                   (reflect.ValueOf_Interface err)];
    rest ← Mem.elements (Mem.Args errorTask);
    args ← Mem.append lit rest;
    let errorTask := Mem.set_Args errorTask args in
    Mem.emit (Mem.SendTask errorTask)).
Proof.
  intros c h Hok.
  destruct (prepend_step h (errorArg err) (Mem.Args c)
              (fun args => Mem.emit (Mem.SendTask (Mem.set_Args c args))) Hok)
    as (h' & l & Hrun & Hrest).
  exists h', l. split; [|exact Hrest]. exact Hrun.
Qed.

Lemma success_body_prepends s t v :
  Mem.Immutable s = false →
  prepends (resultArg t v) (fun successTask =>
    successTask ←
      (if bool_decide (Mem.Immutable s = false) then
         (t ← Mem.pure_ (reflect.Type_ (reflect.V t v));
          v ← Mem.pure_ (reflect.Interface (reflect.V t v));
          lit ← Mem.slice_lit [mkTaskArg (Go.Type_String t) v];
          rest ← Mem.elements (Mem.Args successTask);
          args ← Mem.append lit rest;
          mret (Mem.set_Args successTask args))
       else mret successTask);
    Mem.emit (Mem.SendTask successTask)).
Proof.
  intros Himm c h Hok. rewrite bool_decide_eq_true_2 by done.
  destruct (prepend_step h (resultArg t v) (Mem.Args c)
              (fun args => mret (Mem.set_Args c args)) Hok)
    as (h' & l & Hrun & Hrest).
  exists h', l. split; [|exact Hrest].
  apply (St_bind_Ok _ (fun successTask => Mem.emit (Mem.SendTask successTask)) h h').
  erewrite St_bind_Ok; [|reflexivity].
  erewrite St_bind_Ok; [|reflexivity].
  exact Hrun.
Qed.

Lemma view_OnError h s : OnError (view h s) = map (view h) (Mem.OnError s).
Proof. by destruct s. Qed.

Lemma view_OnSuccess h s : OnSuccess (view h s) = map (view h) (Mem.OnSuccess s).
Proof. by destruct s. Qed.

Lemma view_Name h s : Name (view h s) = Mem.Name s.
Proof. by destruct s. Qed.

Lemma view_Immutable h s : Immutable (view h s) = Mem.Immutable s.
Proof. by destruct s. Qed.

(** The memory-level [finalize] writes no array that was there, and what
    it publishes stands for what [finalize] publishes. Where an argument
    is put in front, each published argument list is a new array. *)
Lemma Mem_finalize_spec h s result err :
  Mem.wf h s = true →
  ∃ h' tr r,
    Mem.finalize s result err h = (h', tr, r)
    ∧ h ⊆ h'
    ∧ map (view_event h') tr = trace (finalize (view h s) result err)
    ∧ r = outcome (finalize (view h s) result err)
    ∧ Forall (fun p => Mem.wf h' p = true) (Mem.published tr)
    ∧ (is_Some err ∨ Mem.Immutable s = false →
       NoDup (published_ptrs tr)
       ∧ Forall (fun o => ∃ l, o = Some l ∧ h !! l = None ∧ is_Some (h' !! l))
           (published_ptrs tr)).
Proof.
  intros Hwf. destruct (wf_parts _ _ Hwf) as (_ & Hs & He).
  destruct err as [err|].
  - (* failure branch *)
    destruct (range_prepends h (errorArg err) _ (Mem.OnError s)
                (error_body_prepends err) He)
      as (h' & ps & Hrun & Hsub & Hviews & Hwfs & Hnd & Hptrs).
    exists h', ([Mem.LogFailed (Mem.Name s); Mem.LogError err] ++ map Mem.SendTask ps), (Ok tt).
    split; [|split; [done|split; [|split; [|split]]]].
    + unfold Mem.finalize. apply emit_then, emit_then. exact Hrun.
    + rewrite finalize_error, view_OnError, view_Name. cbn [trace fst].
      rewrite map_app, view_event_SendTask, Hviews, !map_map. reflexivity.
    + by rewrite finalize_error.
    + unfold Mem.published. rewrite omap_app. cbn [omap list_omap app].
      fold (Mem.published (map Mem.SendTask ps)). by rewrite published_map_SendTask.
    + intros _. unfold published_ptrs, Mem.published. rewrite omap_app. cbn [omap list_omap app].
      fold (Mem.published (map Mem.SendTask ps)). by rewrite published_map_SendTask.
  - destruct result as [|t v].
    + (* the zero Value: [result.Interface()] panics *)
      exists h, [Mem.LogFinished (Mem.Name s)],
        (Panic "reflect: call of reflect.Value.Interface on zero Value").
      split; [reflexivity|split; [done|split; [|split; [|split]]]].
      * by rewrite finalize_success_Zero, view_Name.
      * by rewrite finalize_success_Zero.
      * constructor.
      * intros _. split; constructor.
    + destruct (Mem.Immutable s) eqn:Himm.
      * (* immutable: the elements are published as they are *)
        exists h, ([Mem.LogFinished (Mem.Name s); Mem.LogResult v]
                     ++ map Mem.SendTask (Mem.OnSuccess s)), (Ok tt).
        split; [|split; [done|split; [|split; [|split]]]].
        -- unfold Mem.finalize. apply emit_then.
           erewrite St_bind_Ok; [|reflexivity]. apply emit_then.
           rewrite Mem_range_ext with (g := fun c => Mem.emit (Mem.SendTask c)).
           ++ by rewrite range_SendTask.
           ++ intros c h0. rewrite Himm. by erewrite St_bind_Ok.
        -- rewrite finalize_success, view_OnSuccess, view_Name, view_Immutable, Himm.
           cbn [trace fst]. by rewrite map_app, view_event_SendTask, !map_map.
        -- by rewrite finalize_success.
        -- unfold Mem.published. rewrite omap_app. cbn [omap list_omap app].
           fold (Mem.published (map Mem.SendTask (Mem.OnSuccess s))).
           by rewrite published_map_SendTask.
        -- intros [[e He']|?]; done.
      * (* the result goes in front *)
        destruct (range_prepends h (resultArg t v) _ (Mem.OnSuccess s)
                    (success_body_prepends s t v Himm) Hs)
          as (h' & ps & Hrun & Hsub & Hviews & Hwfs & Hnd & Hptrs).
        exists h', ([Mem.LogFinished (Mem.Name s); Mem.LogResult v] ++ map Mem.SendTask ps), (Ok tt).
        split; [|split; [done|split; [|split; [|split]]]].
        -- unfold Mem.finalize. apply emit_then.
           erewrite St_bind_Ok; [|reflexivity]. apply emit_then. exact Hrun.
        -- rewrite finalize_success, view_OnSuccess, view_Name, view_Immutable, Himm.
           cbn [trace fst].
           rewrite map_app, view_event_SendTask, Hviews, !map_map. reflexivity.
        -- by rewrite finalize_success.
        -- unfold Mem.published. rewrite omap_app. cbn [omap list_omap app].
           fold (Mem.published (map Mem.SendTask ps)). by rewrite published_map_SendTask.
        -- intros _. unfold published_ptrs, Mem.published. rewrite omap_app.
           cbn [omap list_omap app].
           fold (Mem.published (map Mem.SendTask ps)). by rewrite published_map_SendTask.
Qed.

End MemFinalize.

(** ** The continuation engine *)

(** C1: with [Immutable = false] and a non-empty [OnSuccess], after a
    handler success with result [r] of type [t] every published success
    continuation is its template with one new first argument, [r] under
    the type-tag of [t], followed by the template's declared arguments in
    their order; the continuations are published in list order, one
    [SendTask] each, and nothing else is published. *)
Theorem C1_success_prepends_result (s : TaskSignature) (t : Go.Type_) (r : Go.any) :
  Immutable s = false →
  (0 < length (OnSuccess s))%nat →
  published (trace (finalize s (reflect.V t r) None))
    = map (fun c => set_Args c (mkTaskArg (Go.Type_String t) r :: Args c)) (OnSuccess s)
  ∧ length (published (trace (finalize s (reflect.V t r) None))) = length (OnSuccess s)
  ∧ outcome (finalize s (reflect.V t r) None) = Ok tt.
Proof.
  intros Himm _. rewrite finalize_success, Himm. cbn [trace outcome fst snd].
  rewrite published_app, published_SendTask. cbn [published omap list_omap app].
  split; [reflexivity|]. split; [apply length_map|reflexivity].
Qed.

Lemma C1_witness :
  published (trace (finalize Sample.scenarioA Sample.five None))
    = [mkTaskSignature "log" [mkTaskArg "int64" (Go.int64_ 5)] false [] []].
Proof.
  apply (C1_success_prepends_result Sample.scenarioA Go.t_int64 (Go.int64_ 5)).
  - reflexivity.
  - simpl. lia.
Defined.

(** C2: with [Immutable = true], after a handler success every published
    success continuation has exactly its declared arguments: the
    published signatures are the templates themselves, in list order. *)
Theorem C2_immutable_keeps_args (s : TaskSignature) (t : Go.Type_) (r : Go.any) :
  Immutable s = true →
  published (trace (finalize s (reflect.V t r) None)) = OnSuccess s
  ∧ map Args (published (trace (finalize s (reflect.V t r) None))) = map Args (OnSuccess s).
Proof.
  intros Himm. rewrite finalize_success, Himm. cbn [trace fst].
  rewrite published_app, published_SendTask. cbn [published omap list_omap app].
  by rewrite map_id.
Qed.

Lemma C2_witness :
  published (trace (finalize Sample.scenarioB Sample.five None)) = [Sample.log_].
Proof.
  apply (C2_immutable_keeps_args Sample.scenarioB Go.t_int64 (Go.int64_ 5)).
  reflexivity.
Defined.


(** C10: a call of [finalize] runs one branch. With an error it publishes
    the [OnError] continuations and its behaviour does not depend on
    [OnSuccess]; without one it publishes the [OnSuccess] continuations
    (none when the result is the zero Value, where it panics first) and
    its behaviour does not depend on [OnError]. *)
Theorem C10_one_branch (s : TaskSignature) (result : reflect.Value)
    (err : option Go.error) (other : list TaskSignature) :
  match err with
  | Some e =>
      published (trace (finalize s result err)) = map (prepend (errorArg e)) (OnError s)
      ∧ finalize (set_OnSuccess s other) result err = finalize s result err
  | None =>
      match result with
      | reflect.V t v =>
          published (trace (finalize s result err))
            = map (fun c => if Immutable s then c else prepend (resultArg t v) c)
                (OnSuccess s)
      | reflect.Zero => published (trace (finalize s result err)) = []
      end
      ∧ finalize (set_OnError s other) result err = finalize s result err
  end.
Proof.
  destruct err as [e|]; [|destruct result as [|t v]].
  - rewrite !finalize_error. cbn [trace fst].
    by rewrite published_app, published_SendTask.
  - by rewrite !finalize_success_Zero.
  - rewrite !finalize_success. cbn [trace fst].
    by rewrite published_app, published_SendTask.
Qed.

(** ** The worker loop *)

(** Scenario A: one publish, [log] with the result 5 in front. *)
Example scenarioA_publishes :
  published (trace (Sample.run (Sample.delivery Sample.scenarioA)))
    = [mkTaskSignature "log" [mkTaskArg "int64" (Go.int64_ 5)] false [] []].
Proof. reflexivity. Qed.

(** Scenario B: one publish, [log] as declared. *)
Example scenarioB_publishes :
  published (trace (Sample.run (Sample.delivery Sample.scenarioB))) = [Sample.log_].
Proof. reflexivity. Qed.

(** Scenario C: one logged drop. *)
Example scenarioC_drops :
  Sample.run (Sample.delivery Sample.scenarioC) = ([LogNotRegistered "ghost"], Ok tt).
Proof. reflexivity. Qed.

(** C4, on the code: with a handler that returns the error "disk full"
    and [OnError = [alert("pager")]], exactly one continuation is
    published and its first argument is an error under the tag
    [*errors.errorString], but the message it carries is what
    [reflect.Value.String] prints for a Value of type [error], not
    "disk full". *)
Theorem C4_scenarioD_on_the_code :
  published (trace (Sample.run (Sample.delivery Sample.scenarioD)))
    = [set_Args Sample.alert
         [mkTaskArg "*errors.errorString" (Go.error_ (Go.errors_New "<error Value>"));
          Sample.stringArg "pager"]]
  ∧ published (trace (Sample.run (Sample.delivery Sample.scenarioD)))
    ≠ [set_Args Sample.alert
         [mkTaskArg "*errors.errorString" (Go.error_ (Go.errors_New "disk full"));
          Sample.stringArg "pager"]]
  ∧ invocations (trace (Sample.run (Sample.delivery Sample.scenarioD)))
    = [[Go.string_ "/tmp/out"]]
  ∧ (Sample.save.(task_Func) [Go.string_ "/tmp/out"]).2 = Some (Go.errors_New "disk full").
Proof. repeat split. discriminate. Qed.

(** C5: a signature whose name is not registered is logged and dropped:
    no handler invocation, no publish. *)
Theorem C5_not_registered_dropped {Body : Type}
    (json_Unmarshal : Body → TaskSignature → TaskSignature * option Go.error)
    (ReflectArgs : list TaskArg → list reflect.Value * option Go.error)
    (registeredTasks : gmap string Task) (d : Body) :
  registeredTasks !! Name (json_Unmarshal d zeroTaskSignature).1 = None →
  processMessage json_Unmarshal ReflectArgs registeredTasks d
    = ([LogNotRegistered (Name (json_Unmarshal d zeroTaskSignature).1)], Ok tt)
  ∧ invocations (trace (processMessage json_Unmarshal ReflectArgs registeredTasks d)) = []
  ∧ published (trace (processMessage json_Unmarshal ReflectArgs registeredTasks d)) = [].
Proof.
  intros Hreg.
  destruct (json_Unmarshal d zeroTaskSignature) as [s derr] eqn:Hd. cbn [fst] in *.
  rewrite (process_not_registered _ _ _ d s derr Hd Hreg). done.
Qed.

Lemma C5_witness :
  Sample.run (Sample.delivery Sample.scenarioC) = ([LogNotRegistered "ghost"], Ok tt)
  ∧ invocations (trace (Sample.run (Sample.delivery Sample.scenarioC))) = []
  ∧ published (trace (Sample.run (Sample.delivery Sample.scenarioC))) = [].
Proof.
  apply (C5_not_registered_dropped Sample.json_Unmarshal Sample.ReflectArgs
           Sample.registeredTasks (Sample.delivery Sample.scenarioC)).
  vm_compute. reflexivity.
Defined.

(** C6, as stated, fails: the argument tagged int64 holds a string, its
    decoding fails, and the error continuation is published all the
    same. *)
Lemma C6_counterexample :
  (Sample.ReflectArgs (Args Sample.badArg)).2
    = Some (Go.errors_New "cannot decode a string as int64")
  ∧ invocations (trace (Sample.run (Sample.delivery Sample.badArg))) = []
  ∧ published (trace (Sample.run (Sample.delivery Sample.badArg)))
    = [prepend (errorArg (Go.errors_New "cannot decode a string as int64")) Sample.alert]
  ∧ length (published (trace (Sample.run (Sample.delivery Sample.badArg)))) ≠ 0%nat.
Proof. repeat split. discriminate. Qed.

(** C6, amended: when an argument of a registered signature cannot be
    decoded, the handler is not invoked and the decoding error goes
    through the failure branch: every [OnError] continuation is published
    with that error in front, in list order, and no success continuation
    is. *)
Theorem C6_decode_error_takes_failure_branch {Body : Type}
    (json_Unmarshal : Body → TaskSignature → TaskSignature * option Go.error)
    (ReflectArgs : list TaskArg → list reflect.Value * option Go.error)
    (registeredTasks : gmap string Task) (d : Body)
    (s : TaskSignature) (derr : option Go.error) (task : Task)
    (ins : list reflect.Value) (err : Go.error) :
  json_Unmarshal d zeroTaskSignature = (s, derr) →
  registeredTasks !! Name s = Some task →
  ReflectArgs (Args s) = (ins, Some err) →
  invocations (trace (processMessage json_Unmarshal ReflectArgs registeredTasks d)) = []
  ∧ published (trace (processMessage json_Unmarshal ReflectArgs registeredTasks d))
    = map (prepend (errorArg err)) (OnError s)
  ∧ outcome (processMessage json_Unmarshal ReflectArgs registeredTasks d) = Ok tt.
Proof.
  intros Hd Hreg Hargs.
  rewrite (process_ReflectArgs_error _ _ _ d s derr Hd task Hreg ins err Hargs).
  cbn [trace outcome fst snd].
  rewrite invocations_app, published_app, invocations_SendTask, published_SendTask.
  done.
Qed.

Lemma C6_witness :
  invocations (trace (Sample.run (Sample.delivery Sample.badArg))) = []
  ∧ published (trace (Sample.run (Sample.delivery Sample.badArg)))
    = map (prepend (errorArg (Go.errors_New "cannot decode a string as int64")))
        (OnError Sample.badArg)
  ∧ outcome (Sample.run (Sample.delivery Sample.badArg)) = Ok tt.
Proof.
  apply (C6_decode_error_takes_failure_branch Sample.json_Unmarshal Sample.ReflectArgs
           Sample.registeredTasks (Sample.delivery Sample.badArg)
           Sample.badArg None Sample.add []
           (Go.errors_New "cannot decode a string as int64")).
  - reflexivity.
  - reflexivity.
  - reflexivity.
Defined.

(** C7, as stated, fails: with one argument for the two parameters of
    [add], and with a string for an int64 parameter, the arguments do not
    match, yet [Call] is attempted and panics; no error is produced for
    the failure branch and the waiting error continuation is not
    published. *)
Lemma C7_counterexample :
  args_match (Sample.ReflectArgs (Args Sample.tooFew)).1 (task_In Sample.add) = false
  ∧ Sample.run (Sample.delivery Sample.tooFew)
    = ([LogStarted "add"], Panic "reflect: Call with too few input arguments")
  ∧ OnError Sample.tooFew = [Sample.alert]
  ∧ args_match (Sample.ReflectArgs (Args Sample.wrongType)).1 (task_In Sample.add) = false
  ∧ Sample.run (Sample.delivery Sample.wrongType)
    = ([LogStarted "add"], Panic "reflect: Call using string as type int64")
  ∧ OnError Sample.wrongType = [Sample.alert].
Proof. repeat split. Qed.

(** C7, amended: nothing compares the decoded arguments with the
    handler's parameters before the call. On an arity or type mismatch
    the reflective call itself panics: the handler does not run, no error
    reaches [finalize] and no continuation is published. *)
Theorem C7_mismatch_panics_in_Call {Body : Type}
    (json_Unmarshal : Body → TaskSignature → TaskSignature * option Go.error)
    (ReflectArgs : list TaskArg → list reflect.Value * option Go.error)
    (registeredTasks : gmap string Task) (d : Body)
    (s : TaskSignature) (derr : option Go.error) (task : Task)
    (ins : list reflect.Value) :
  json_Unmarshal d zeroTaskSignature = (s, derr) →
  registeredTasks !! Name s = Some task →
  ReflectArgs (Args s) = (ins, None) →
  args_match ins (task_In task) = false →
  (∃ msg, processMessage json_Unmarshal ReflectArgs registeredTasks d
          = ([LogStarted (Name s)], Panic msg))
  ∧ invocations (trace (processMessage json_Unmarshal ReflectArgs registeredTasks d)) = []
  ∧ published (trace (processMessage json_Unmarshal ReflectArgs registeredTasks d)) = [].
Proof.
  intros Hd Hreg Hargs Hmis.
  destruct (process_Call_panic _ _ _ d s derr Hd task Hreg ins Hargs Hmis) as [msg Hrun].
  rewrite Hrun. split; [by exists msg|done].
Qed.

Lemma C7_witness :
  (∃ msg, Sample.run (Sample.delivery Sample.tooFew) = ([LogStarted "add"], Panic msg))
  ∧ invocations (trace (Sample.run (Sample.delivery Sample.tooFew))) = []
  ∧ published (trace (Sample.run (Sample.delivery Sample.tooFew))) = [].
Proof.
  apply (C7_mismatch_panics_in_Call Sample.json_Unmarshal Sample.ReflectArgs
           Sample.registeredTasks (Sample.delivery Sample.tooFew)
           Sample.tooFew None Sample.add
           [reflect.V Go.t_int64 (Go.int64_ 2)]).
  - reflexivity.
  - reflexivity.
  - reflexivity.
  - reflexivity.
Defined.

(** C9, as stated, fails: the body has a string where [Immutable] wants a
    boolean, so decoding fails with a type error; the name and the
    arguments were decoded, the error is discarded, and the task runs and
    its success continuation is published. *)
Lemma C9_counterexample :
  (Sample.json_Unmarshal Sample.badFlag zeroTaskSignature).2 = Some Sample.UnmarshalTypeError
  ∧ invocations (trace (Sample.run Sample.badFlag)) = [[Go.int64_ 2; Go.int64_ 3]]
  ∧ published (trace (Sample.run Sample.badFlag))
    = [prepend (mkTaskArg "int64" (Go.int64_ 5)) Sample.log_].
Proof. repeat split. Qed.

(** C9, amended: for every envelope that fails to decode, the error of
    the decoder is discarded and the message is handled by what the
    decoder left in the signature: any decoder that leaves the same
    signature, with or without an error, gives the same run, whether the
    name left there is registered or not. The message is dropped, with
    one log line, no invocation and no publish, when that name is not
    registered, as is the empty name of a body that is not JSON when no
    task is registered under it. *)
Theorem C9_decode_failure_unregistered_dropped {Body : Type}
    (json_Unmarshal : Body → TaskSignature → TaskSignature * option Go.error)
    (ReflectArgs : list TaskArg → list reflect.Value * option Go.error)
    (registeredTasks : gmap string Task) (d : Body)
    (s : TaskSignature) (derr : Go.error) :
  json_Unmarshal d zeroTaskSignature = (s, Some derr) →
  (∀ json_Unmarshal' : Body → TaskSignature → TaskSignature * option Go.error,
     (json_Unmarshal' d zeroTaskSignature).1 = s →
     processMessage json_Unmarshal' ReflectArgs registeredTasks d
     = processMessage json_Unmarshal ReflectArgs registeredTasks d)
  ∧ processMessage json_Unmarshal ReflectArgs registeredTasks d
    = processMessage (fun _ _ => (s, None)) ReflectArgs registeredTasks d
  ∧ (registeredTasks !! Name s = None →
     processMessage json_Unmarshal ReflectArgs registeredTasks d
       = ([LogNotRegistered (Name s)], Ok tt)
     ∧ invocations (trace (processMessage json_Unmarshal ReflectArgs registeredTasks d)) = []
     ∧ published (trace (processMessage json_Unmarshal ReflectArgs registeredTasks d)) = []).
Proof.
  intros Hd.
  assert (Hsame : ∀ json_Unmarshal' : Body → TaskSignature → TaskSignature * option Go.error,
            (json_Unmarshal' d zeroTaskSignature).1 = s →
            processMessage json_Unmarshal' ReflectArgs registeredTasks d
            = processMessage json_Unmarshal ReflectArgs registeredTasks d).
  { intros json_Unmarshal' Hs. unfold processMessage. rewrite Hd.
    destruct (json_Unmarshal' d zeroTaskSignature) as [s' derr']. cbn [fst] in Hs.
    by subst s'. }
  split; [exact Hsame|]. split.
  - symmetry. by apply Hsame.
  - intros Hreg.
    rewrite (process_not_registered _ _ _ d s (Some derr) Hd Hreg). done.
Qed.

Lemma C9_witness :
  Sample.run Sample.garbage
    = processMessage (fun _ _ => (zeroTaskSignature, None)) Sample.ReflectArgs
        Sample.registeredTasks Sample.garbage
  ∧ Sample.run Sample.garbage = ([LogNotRegistered ""], Ok tt)
  ∧ invocations (trace (Sample.run Sample.garbage)) = []
  ∧ published (trace (Sample.run Sample.garbage)) = [].
Proof.
  assert (Hd : Sample.json_Unmarshal Sample.garbage zeroTaskSignature
               = (zeroTaskSignature, Some Sample.SyntaxError)) by reflexivity.
  pose proof (C9_decode_failure_unregistered_dropped Sample.json_Unmarshal
                Sample.ReflectArgs Sample.registeredTasks Sample.garbage
                zeroTaskSignature Sample.SyntaxError Hd) as (_ & Hsame & Hdrop).
  split; [exact Hsame|]. apply Hdrop. vm_compute. reflexivity.
Defined.

(** ** Construction in memory *)

(** C8, as stated, fails: with [Immutable = true] the published success
    continuations are copies of the templates, headers included, so the
    argument list published by the first call, the one published by the
    second call and the template's own are one and the same array. *)
Lemma C8_counterexample :
  Mem.wf Sample.heap0 (Sample.mem_origin true) = true
  ∧ published_ptrs (Sample.first_run true).1.2 = [Some 1%positive]
  ∧ published_ptrs (Sample.second_run true).1.2 = [Some 1%positive]
  ∧ Mem.ptr (Mem.Args Sample.mem_alert) = Some 1%positive
  ∧ ¬ NoDup (published_ptrs (Sample.first_run true).1.2
             ++ published_ptrs (Sample.second_run true).1.2).
Proof.
  repeat split; try (vm_compute; reflexivity).
  vm_compute. intros Hnd. apply NoDup_cons in Hnd as [Hnotin _].
  apply Hnotin. constructor.
Qed.

(** The success branch of an immutable signature: the templates are
    handed to [SendTask] as they are and the memory is not touched. *)
Lemma Mem_finalize_immutable (h : Mem.heap) (s : Mem.Sig) (t : Go.Type_) (v : Go.any) :
  Mem.Immutable s = true →
  Mem.finalize s (reflect.V t v) None h
  = (h, [Mem.LogFinished (Mem.Name s); Mem.LogResult v]
          ++ map Mem.SendTask (Mem.OnSuccess s), Ok tt).
Proof.
  intros Himm. unfold Mem.finalize. apply emit_then.
  erewrite St_bind_Ok; [|reflexivity]. apply emit_then.
  rewrite Mem_range_ext with (g := fun c => Mem.emit (Mem.SendTask c)).
  - by rewrite range_SendTask.
  - intros c h0. rewrite Himm. by erewrite St_bind_Ok.
Qed.

Lemma published_after_logs (e1 e2 : Mem.Event) (ps : list Mem.Sig) :
  Mem.published [e1] = [] → Mem.published [e2] = [] →
  Mem.published ([e1; e2] ++ map Mem.SendTask ps) = ps.
Proof.
  intros H1 H2.
  change ([e1; e2] ++ map Mem.SendTask ps) with ([e1] ++ [e2] ++ map Mem.SendTask ps).
  unfold Mem.published in *. rewrite !omap_app, H1, H2.
  fold (Mem.published (map Mem.SendTask ps)). by rewrite published_map_SendTask.
Qed.

(** C8, amended: [finalize] writes no array that was in memory, so the
    input signature and the templates in its lists read the same after
    it; two calls with the same signature and outcome publish
    structurally identical sequences; and wherever an argument is put in
    front (the failure branch, and the success branch with
    [Immutable = false]) every published argument list, over both calls,
    is an array of its own that was not in memory before. In the success
    branch with [Immutable = true] both calls publish the templates
    themselves, so every published continuation carries its template's
    own argument list, header and array, and the memory is left as it
    was. *)
Theorem C8_finalize_builds_new_argument_lists (h : Mem.heap) (s : Mem.Sig)
    (result : reflect.Value) (err : option Go.error) :
  Mem.wf h s = true →
  let run1 := Mem.finalize s result err h in
  let run2 := Mem.finalize s result err run1.1.1 in
  (∀ l arr, h !! l = Some arr →
     run1.1.1 !! l = Some arr ∧ run2.1.1 !! l = Some arr)
  ∧ view run1.1.1 s = view h s
  ∧ view run2.1.1 s = view h s
  ∧ map (view run2.1.1) (Mem.published run1.1.2)
    = map (view run2.1.1) (Mem.published run2.1.2)
  ∧ map (view run2.1.1) (Mem.published run1.1.2)
    = published (trace (finalize (view h s) result err))
  ∧ run1.2 = run2.2
  ∧ (is_Some err ∨ Mem.Immutable s = false →
     NoDup (published_ptrs run1.1.2 ++ published_ptrs run2.1.2)
     ∧ Forall (fun o => ∃ l, o = Some l ∧ h !! l = None)
         (published_ptrs run1.1.2 ++ published_ptrs run2.1.2))
  ∧ (err = None → Mem.Immutable s = true → result ≠ reflect.Zero →
     Mem.published run1.1.2 = Mem.OnSuccess s
     ∧ Mem.published run2.1.2 = Mem.OnSuccess s
     ∧ published_ptrs run1.1.2 = map (fun c => Mem.ptr (Mem.Args c)) (Mem.OnSuccess s)
     ∧ published_ptrs run2.1.2 = map (fun c => Mem.ptr (Mem.Args c)) (Mem.OnSuccess s)
     ∧ run1.1.1 = h ∧ run2.1.1 = h).
Proof.
  intros Hwf run1 run2.
  assert (Hshared : err = None → Mem.Immutable s = true → result ≠ reflect.Zero →
            Mem.published run1.1.2 = Mem.OnSuccess s
            ∧ Mem.published run2.1.2 = Mem.OnSuccess s
            ∧ published_ptrs run1.1.2 = map (fun c => Mem.ptr (Mem.Args c)) (Mem.OnSuccess s)
            ∧ published_ptrs run2.1.2 = map (fun c => Mem.ptr (Mem.Args c)) (Mem.OnSuccess s)
            ∧ run1.1.1 = h ∧ run2.1.1 = h).
  { intros -> Himm Hvalid. destruct result as [|t v]; [done|].
    subst run1 run2. unfold published_ptrs.
    rewrite !(Mem_finalize_immutable h s t v Himm). cbn [fst snd].
    rewrite !(Mem_finalize_immutable h s t v Himm). cbn [fst snd].
    by rewrite !published_after_logs. }
  destruct (Mem_finalize_spec h s result err Hwf)
    as (h1 & tr1 & r1 & Hrun1 & Hsub1 & Htr1 & Hr1 & Hwf1 & Hnew1).
  assert (Hwfs1 : Mem.wf h1 s = true) by (by eapply wf_mono).
  destruct (Mem_finalize_spec h1 s result err Hwfs1)
    as (h2 & tr2 & r2 & Hrun2 & Hsub2 & Htr2 & Hr2 & Hwf2 & Hnew2).
  subst run1 run2. rewrite Hrun1 in *. cbn [fst snd] in *. rewrite Hrun2 in *.
  cbn [fst snd] in *.
  assert (Hview1 : view h1 s = view h s) by (by apply view_mono).
  assert (Hview2 : view h2 s = view h s).
  { by rewrite (view_mono _ _ _ Hsub2 Hwfs1). }
  assert (Hpub1 : map (view h2) (Mem.published tr1)
                  = published (trace (finalize (view h s) result err))).
  { rewrite (map_view_mono _ _ _ Hsub2 Hwf1), <- published_view_event. by rewrite Htr1. }
  assert (Hpub2 : map (view h2) (Mem.published tr2)
                  = published (trace (finalize (view h s) result err))).
  { rewrite <- published_view_event, Htr2. by rewrite Hview1. }
  split; [|split; [done|split; [done|split; [|split; [done|split; [|split; [|done]]]]]]].
  - intros l arr Hl. split.
    + by eapply lookup_weaken.
    + eapply lookup_weaken; [|exact Hsub2]. by eapply lookup_weaken.
  - by rewrite Hpub1, Hpub2.
  - rewrite Hr1, Hr2. by rewrite Hview1.
  - intros Hpre. destruct (Hnew1 Hpre) as [Hnd1 Hfresh1].
    destruct (Hnew2 Hpre) as [Hnd2 Hfresh2]. split.
    + apply NoDup_app. split; [done|split; [|done]].
      intros o Ho1 Ho2.
      destruct (proj1 (Forall_forall _ _) Hfresh1 _ Ho1) as (l & -> & _ & [arr Hl]).
      destruct (proj1 (Forall_forall _ _) Hfresh2 _ Ho2) as (l' & [= <-] & Hnone & _).
      by rewrite Hl in Hnone.
    + apply Forall_app. split.
      * eapply Forall_impl; [exact Hfresh1|]. intros o (l & -> & Hnone & _). eauto.
      * eapply Forall_impl; [exact Hfresh2|]. intros o (l & -> & Hnone & _).
        exists l. split; [done|].
        destruct (h !! l) as [arr|] eqn:Hl; [|done].
        by rewrite (lookup_weaken _ _ _ _ Hl Hsub1) in Hnone.
Qed.

Lemma C8_witness :
  Mem.wf Sample.heap0 (Sample.mem_origin false) = true
  ∧ map (view (Sample.second_run false).1.1) (Mem.published (Sample.first_run false).1.2)
    = map (view (Sample.second_run false).1.1) (Mem.published (Sample.second_run false).1.2)
  ∧ NoDup (published_ptrs (Sample.first_run false).1.2
           ++ published_ptrs (Sample.second_run false).1.2).
Proof.
  assert (Hwf : Mem.wf Sample.heap0 (Sample.mem_origin false) = true)
    by (vm_compute; reflexivity).
  pose proof (C8_finalize_builds_new_argument_lists Sample.heap0
                (Sample.mem_origin false) Sample.five None Hwf)
    as (_ & _ & _ & Hsame & _ & _ & Hnew & _).
  split; [exact Hwf|]. split; [exact Hsame|].
  apply Hnew. right. reflexivity.
Defined.

(** ** Every path of [processMessage] at once *)

Section AllPaths.

Context {Body : Type}.
Variable json_Unmarshal : Body → TaskSignature → TaskSignature * option Go.error.
Variable ReflectArgs : list TaskArg → list reflect.Value * option Go.error.
Variable registeredTasks : gmap string Task.

Local Abbreviation process := (processMessage json_Unmarshal ReflectArgs registeredTasks).
Local Abbreviation decoded d := (json_Unmarshal d zeroTaskSignature).1.

(** A message takes exactly one of five paths. *)
Lemma process_cases (d : Body) :
  (registeredTasks !! Name (decoded d) = None
   ∧ process d = ([LogNotRegistered (Name (decoded d))], Ok tt))
  ∨ (∃ task ins err,
       registeredTasks !! Name (decoded d) = Some task
       ∧ ReflectArgs (Args (decoded d)) = (ins, Some err)
       ∧ process d =
         ([LogStarted (Name (decoded d)); LogFailed (Name (decoded d)); LogError err]
            ++ map (fun c => SendTask (prepend (errorArg err) c)) (OnError (decoded d)),
          Ok tt))
  ∨ (∃ task ins msg,
       registeredTasks !! Name (decoded d) = Some task
       ∧ ReflectArgs (Args (decoded d)) = (ins, None)
       ∧ args_match ins (task_In task) = false
       ∧ process d = ([LogStarted (Name (decoded d))], Panic msg))
  ∨ (∃ task ins r e,
       registeredTasks !! Name (decoded d) = Some task
       ∧ ReflectArgs (Args (decoded d)) = (ins, None)
       ∧ args_match ins (task_In task) = true
       ∧ task_Func task (map reflect_call.unbox ins) = (r, Some e)
       ∧ process d =
         ([LogStarted (Name (decoded d)); HandlerCall (map reflect_call.unbox ins);
           LogFailed (Name (decoded d)); LogError (Go.errors_New "<error Value>")]
            ++ map (fun c => SendTask (prepend (errorArg (Go.errors_New "<error Value>")) c))
                 (OnError (decoded d)),
          Ok tt))
  ∨ (∃ task ins r,
       registeredTasks !! Name (decoded d) = Some task
       ∧ ReflectArgs (Args (decoded d)) = (ins, None)
       ∧ args_match ins (task_In task) = true
       ∧ task_Func task (map reflect_call.unbox ins) = (r, None)
       ∧ process d =
         ([LogStarted (Name (decoded d)); HandlerCall (map reflect_call.unbox ins);
           LogFinished (Name (decoded d)); LogResult r]
            ++ map (fun c => SendTask (if Immutable (decoded d) then c
                                       else prepend (resultArg (task_Out task) r) c))
                 (OnSuccess (decoded d)),
          Ok tt)).
Proof.
  destruct (json_Unmarshal d zeroTaskSignature) as [s derr] eqn:Hd. cbn [fst].
  destruct (registeredTasks !! Name s) as [task|] eqn:Hreg.
  2: { left. split; [done|]. by eapply process_not_registered. }
  right. destruct (ReflectArgs (Args s)) as [ins [err|]] eqn:Hargs.
  { left. exists task, ins, err. repeat split; try done.
    by eapply process_ReflectArgs_error. }
  right. destruct (args_match ins (task_In task)) eqn:Hmatch.
  2: { left. destruct (process_Call_panic _ _ _ d s derr Hd task Hreg ins Hargs Hmatch)
         as [msg Hrun].
       by exists task, ins, msg. }
  right. destruct (task_Func task (map reflect_call.unbox ins)) as [r [e|]] eqn:Hrun.
  - left. exists task, ins, r, e. repeat split; try done.
    by eapply process_handler_error.
  - right. exists task, ins, r. repeat split; try done.
    by eapply process_handler_success.
Qed.

End AllPaths.

Lemma invocations_cons_SendTasks (f : TaskSignature → TaskSignature) pre l :
  invocations (pre ++ map (fun c => SendTask (f c)) l) = invocations pre.
Proof. by rewrite invocations_app, invocations_SendTask, app_nil_r. Qed.

Lemma published_cons_SendTasks (f : TaskSignature → TaskSignature) pre l :
  published pre = [] → published (pre ++ map (fun c => SendTask (f c)) l) = map f l.
Proof. intros Hpre. by rewrite published_app, published_SendTask, Hpre. Qed.

(** ** More on the worker loop *)

(** X1: whatever the body, the decoder, the argument decoder and the
    registry, one message makes the worker run at most one handler. *)
Theorem X1_at_most_one_invocation {Body : Type}
    (json_Unmarshal : Body → TaskSignature → TaskSignature * option Go.error)
    (ReflectArgs : list TaskArg → list reflect.Value * option Go.error)
    (registeredTasks : gmap string Task) (d : Body) :
  (length (invocations (trace (processMessage json_Unmarshal ReflectArgs registeredTasks d)))
   ≤ 1)%nat.
Proof.
  destruct (process_cases json_Unmarshal ReflectArgs registeredTasks d)
    as [[_ ->]|[(task & ins & err & _ & _ & ->)|[(task & ins & msg & _ & _ & _ & ->)
       |[(task & ins & r & e & _ & _ & _ & _ & ->)|(task & ins & r & _ & _ & _ & _ & ->)]]]];
    cbn [trace fst]; rewrite ?invocations_cons_SendTasks; cbn; lia.
Qed.

(** X2: continuations are published only after the handler has returned:
    every trace splits into a first part without any publish and a second
    part without any handler run. *)
Theorem X2_publish_after_handler {Body : Type}
    (json_Unmarshal : Body → TaskSignature → TaskSignature * option Go.error)
    (ReflectArgs : list TaskArg → list reflect.Value * option Go.error)
    (registeredTasks : gmap string Task) (d : Body) :
  ∃ before after,
    trace (processMessage json_Unmarshal ReflectArgs registeredTasks d) = before ++ after
    ∧ published before = []
    ∧ invocations after = []
    ∧ published after
      = published (trace (processMessage json_Unmarshal ReflectArgs registeredTasks d)).
Proof.
  destruct (process_cases json_Unmarshal ReflectArgs registeredTasks d)
    as [[_ ->]|[(task & ins & err & _ & _ & ->)|[(task & ins & msg & _ & _ & _ & ->)
       |[(task & ins & r & e & _ & _ & _ & _ & ->)|(task & ins & r & _ & _ & _ & _ & ->)]]]];
    cbn [trace fst].
  - by exists [LogNotRegistered (Name (json_Unmarshal d zeroTaskSignature).1)], [].
  - eexists _, _. split; [reflexivity|]. split; [done|].
    rewrite invocations_SendTask. split; [done|].
    by rewrite published_app.
  - by exists [LogStarted (Name (json_Unmarshal d zeroTaskSignature).1)], [].
  - eexists _, _. split; [reflexivity|]. split; [done|].
    rewrite invocations_SendTask. split; [done|].
    by rewrite published_app.
  - eexists _, _. split; [reflexivity|]. split; [done|].
    rewrite invocations_SendTask. split; [done|].
    by rewrite published_app.
Qed.

(** X3: one message publishes nothing, or every [OnError] continuation
    with one and the same error in front, or every [OnSuccess]
    continuation (all with the same result in front, or all as declared):
    never a part of a list and never continuations of both lists. *)
Theorem X3_all_or_nothing {Body : Type}
    (json_Unmarshal : Body → TaskSignature → TaskSignature * option Go.error)
    (ReflectArgs : list TaskArg → list reflect.Value * option Go.error)
    (registeredTasks : gmap string Task) (d : Body) :
  published (trace (processMessage json_Unmarshal ReflectArgs registeredTasks d)) = []
  ∨ (∃ err,
       published (trace (processMessage json_Unmarshal ReflectArgs registeredTasks d))
       = map (prepend (errorArg err)) (OnError (json_Unmarshal d zeroTaskSignature).1))
  ∨ (∃ t r,
       published (trace (processMessage json_Unmarshal ReflectArgs registeredTasks d))
       = map (prepend (resultArg t r)) (OnSuccess (json_Unmarshal d zeroTaskSignature).1))
  ∨ published (trace (processMessage json_Unmarshal ReflectArgs registeredTasks d))
    = OnSuccess (json_Unmarshal d zeroTaskSignature).1.
Proof.
  destruct (process_cases json_Unmarshal ReflectArgs registeredTasks d)
    as [[_ ->]|[(task & ins & err & _ & _ & ->)|[(task & ins & msg & _ & _ & _ & ->)
       |[(task & ins & r & e & _ & _ & _ & _ & ->)|(task & ins & r & _ & _ & _ & _ & ->)]]]];
    cbn [trace fst].
  - by left.
  - right; left. exists err. by rewrite published_cons_SendTasks.
  - by left.
  - right; left. exists (Go.errors_New "<error Value>"). by rewrite published_cons_SendTasks.
  - right; right. rewrite published_cons_SendTasks by done.
    destruct (Immutable (json_Unmarshal d zeroTaskSignature).1).
    + right. apply map_id.
    + left. by exists (task_Out task), r.
Qed.

(** X5: when the handler returns an error, whatever its text and
    whatever value comes with it, the handler has run once and every
    [OnError] continuation is published with the same first argument: an
    [*errors.errorString] whose text is what [reflect.Value.String]
    prints for a Value of type [error]. The handler's own text and value
    reach no continuation. *)
Theorem X5_handler_error_text_lost {Body : Type}
    (json_Unmarshal : Body → TaskSignature → TaskSignature * option Go.error)
    (ReflectArgs : list TaskArg → list reflect.Value * option Go.error)
    (registeredTasks : gmap string Task) (d : Body)
    (s : TaskSignature) (derr : option Go.error) (task : Task)
    (ins : list reflect.Value) (r : Go.any) (e : Go.error) :
  json_Unmarshal d zeroTaskSignature = (s, derr) →
  registeredTasks !! Name s = Some task →
  ReflectArgs (Args s) = (ins, None) →
  args_match ins (task_In task) = true →
  task_Func task (map reflect_call.unbox ins) = (r, Some e) →
  published (trace (processMessage json_Unmarshal ReflectArgs registeredTasks d))
    = map (fun c => set_Args c
             (mkTaskArg "*errors.errorString" (Go.error_ (Go.errors_New "<error Value>"))
              :: Args c))
        (OnError s)
  ∧ invocations (trace (processMessage json_Unmarshal ReflectArgs registeredTasks d))
    = [map reflect_call.unbox ins]
  ∧ outcome (processMessage json_Unmarshal ReflectArgs registeredTasks d) = Ok tt.
Proof.
  intros Hd Hreg Hargs Hok Hrun.
  rewrite (process_handler_error _ _ _ d s derr Hd task Hreg ins r e Hargs Hok Hrun).
  cbn [trace outcome fst snd].
  rewrite invocations_cons_SendTasks, published_cons_SendTasks by done. done.
Qed.

Lemma X5_witness :
  published (trace (Sample.run (Sample.delivery Sample.scenarioD)))
    = map (fun c => set_Args c
             (mkTaskArg "*errors.errorString" (Go.error_ (Go.errors_New "<error Value>"))
              :: Args c))
        (OnError Sample.scenarioD)
  ∧ invocations (trace (Sample.run (Sample.delivery Sample.scenarioD)))
    = [map reflect_call.unbox [reflect.V Go.t_string (Go.string_ "/tmp/out")]]
  ∧ outcome (Sample.run (Sample.delivery Sample.scenarioD)) = Ok tt.
Proof.
  apply (X5_handler_error_text_lost Sample.json_Unmarshal Sample.ReflectArgs
           Sample.registeredTasks (Sample.delivery Sample.scenarioD)
           Sample.scenarioD None Sample.save
           [reflect.V Go.t_string (Go.string_ "/tmp/out")]
           (Go.string_ EmptyString) (Go.errors_New "disk full")).
  - reflexivity.
  - reflexivity.
  - reflexivity.
  - reflexivity.
  - reflexivity.
Defined.

(** X6: from the message to the publish calls. When the name is
    registered, the arguments decode and fit the handler, and the handler
    returns [r] without error, the handler has run exactly once, on the
    decoded values in their order, and every [OnSuccess] continuation is
    published in order: as declared when the signature is immutable, with
    [r] under the handler's declared result type in front otherwise. No
    [OnError] continuation is published. *)
Theorem X6_message_to_success_continuations {Body : Type}
    (json_Unmarshal : Body → TaskSignature → TaskSignature * option Go.error)
    (ReflectArgs : list TaskArg → list reflect.Value * option Go.error)
    (registeredTasks : gmap string Task) (d : Body)
    (s : TaskSignature) (derr : option Go.error) (task : Task)
    (ins : list reflect.Value) (r : Go.any) :
  json_Unmarshal d zeroTaskSignature = (s, derr) →
  registeredTasks !! Name s = Some task →
  ReflectArgs (Args s) = (ins, None) →
  args_match ins (task_In task) = true →
  task_Func task (map reflect_call.unbox ins) = (r, None) →
  published (trace (processMessage json_Unmarshal ReflectArgs registeredTasks d))
    = (if Immutable s then OnSuccess s
       else map (fun c => set_Args c
                   (mkTaskArg (Go.Type_String (task_Out task)) r :: Args c))
              (OnSuccess s))
  ∧ invocations (trace (processMessage json_Unmarshal ReflectArgs registeredTasks d))
    = [map reflect_call.unbox ins]
  ∧ outcome (processMessage json_Unmarshal ReflectArgs registeredTasks d) = Ok tt.
Proof.
  intros Hd Hreg Hargs Hok Hrun.
  rewrite (process_handler_success _ _ _ d s derr Hd task Hreg ins r Hargs Hok Hrun).
  cbn [trace outcome fst snd].
  rewrite invocations_cons_SendTasks, published_cons_SendTasks by done.
  split; [|done]. destruct (Immutable s); [apply map_id|done].
Qed.

Lemma X6_witness :
  published (trace (Sample.run (Sample.delivery Sample.scenarioA)))
    = (if Immutable Sample.scenarioA then OnSuccess Sample.scenarioA
       else map (fun c => set_Args c
                   (mkTaskArg (Go.Type_String (task_Out Sample.add)) (Go.int64_ 5)
                    :: Args c))
              (OnSuccess Sample.scenarioA))
  ∧ invocations (trace (Sample.run (Sample.delivery Sample.scenarioA)))
    = [map reflect_call.unbox
         [reflect.V Go.t_int64 (Go.int64_ 2); reflect.V Go.t_int64 (Go.int64_ 3)]]
  ∧ outcome (Sample.run (Sample.delivery Sample.scenarioA)) = Ok tt.
Proof.
  apply (X6_message_to_success_continuations Sample.json_Unmarshal Sample.ReflectArgs
           Sample.registeredTasks (Sample.delivery Sample.scenarioA)
           Sample.scenarioA None Sample.add
           [reflect.V Go.t_int64 (Go.int64_ 2); reflect.V Go.t_int64 (Go.int64_ 3)]
           (Go.int64_ 5)).
  - reflexivity.
  - reflexivity.
  - reflexivity.
  - reflexivity.
  - reflexivity.
Defined.

(** X7: the flag that decides about the prepend is the one of the
    signature that ran; the [Immutable] flags of the continuations
    themselves change nothing in the arguments they are published with. *)
Theorem X7_flag_of_the_continuation_ignored (s : TaskSignature) (t : Go.Type_)
    (r : Go.any) (flag : bool) :
  map Args (published (trace (finalize
     (set_OnSuccess s (map (fun c => set_Immutable c flag) (OnSuccess s)))
     (reflect.V t r) None)))
  = map Args (published (trace (finalize s (reflect.V t r) None))).
Proof.
  rewrite !finalize_success. cbn [trace fst].
  rewrite !published_cons_SendTasks by done. cbn [set_OnSuccess Immutable OnSuccess].
  rewrite !map_map. apply map_ext. intros c. by destruct (Immutable s).
Qed.

(** ** More on construction in memory *)

Section MemAccounting.

Implicit Types (h : Mem.heap) (m c p s : Mem.Sig) (sl : Mem.slice).

(** [append([]TaskArg{x}, sl...)] once more, counting the arrays: one new
    array when [sl] shows nothing ([append] hands back the literal), two
    when it shows something (the literal, then the array the elements are
    copied to). *)
Lemma prepend_step_alloc {B} h (x : TaskArg) sl (k : Mem.slice → Mem.St B) :
  Mem.slice_ok h sl = true →
  ∃ h' sl',
    (lit ← Mem.slice_lit [x]; rest ← Mem.elements sl;
     args ← Mem.append lit rest; k args) h = k sl' h'
    ∧ h ⊆ h'
    ∧ size h' = (size h + if decide (Mem.read h sl = []) then 1 else 2)%nat.
Proof.
  intros Hok.
  set (l1 := fresh (dom h)).
  assert (Hl1 : h !! l1 = None) by (apply not_elem_of_dom, is_fresh).
  set (h1 := <[l1 := [x]]> h).
  assert (Hsub1 : h ⊆ h1) by (by apply insert_subseteq).
  assert (Hsize1 : size h1 = S (size h)) by (by apply map_size_insert_None).
  assert (Hlit : Mem.slice_lit [x] h = (h1, [], Ok (Mem.mkSlice (Some l1) 1 1))).
  { unfold Mem.slice_lit. by erewrite St_bind_Ok. }
  rewrite (St_bind_Ok _ _ _ _ _ Hlit).
  rewrite (St_bind_Ok _ _ _ _ _ (elements_read h1 sl (slice_ok_mono _ _ _ Hsub1 Hok))).
  rewrite (read_mono _ _ _ Hsub1 Hok).
  destruct (Mem.read h sl) as [|y rest] eqn:Hrest.
  - exists h1, (Mem.mkSlice (Some l1) 1 1). split; [|split; [done|]].
    + apply St_bind_Ok.
      unfold Mem.append. cbn [Mem.len Mem.cap Mem.ptr length Nat.add Nat.leb].
      erewrite St_bind_Ok; cycle 1.
      { unfold Mem.load_array, h1. by rewrite lookup_insert_eq. }
      unfold mbind, Mem.St_bind, Mem.store_array. cbn.
      f_equal. f_equal. unfold h1. by rewrite insert_insert_eq.
    + rewrite Hsize1. rewrite decide_True by done. lia.
  - set (l2 := fresh (dom h1)).
    assert (Hl2 : h1 !! l2 = None) by (apply not_elem_of_dom, is_fresh).
    set (h2 := <[l2 := x :: y :: rest]> h1).
    exists h2, (Mem.mkSlice (Some l2) (S (S (length rest))) (S (S (length rest)))).
    split; [|split].
    + apply St_bind_Ok.
      unfold Mem.append. cbn [Mem.len Mem.cap Mem.ptr length Nat.add Nat.leb].
      assert (Hold : Mem.elements (Mem.mkSlice (Some l1) 1 1) h1 = (h1, [], Ok [x])).
      { unfold Mem.elements. cbn [Mem.ptr Mem.len].
        erewrite St_bind_Ok; cycle 1.
        { unfold Mem.load_array, h1. by rewrite lookup_insert_eq. }
        reflexivity. }
      rewrite (St_bind_Ok _ _ _ _ _ Hold).
      by erewrite St_bind_Ok.
    + etrans; [exact Hsub1|]. by apply insert_subseteq.
    + unfold h2. rewrite map_size_insert_None by done. rewrite Hsize1.
      rewrite decide_False by done. lia.
Qed.

(** A loop whose every turn publishes its element under a new header and
    allocates at most two arrays. *)
Lemma range_shape_alloc (body : Mem.Sig → Mem.St unit) (cs : list Mem.Sig) h :
  (∀ c h, Mem.slice_ok h (Mem.Args c) = true →
     ∃ h' sl, body c h = (h', [Mem.SendTask (Mem.set_Args c sl)], Ok tt)
              ∧ h ⊆ h' ∧ (size h' ≤ size h + 2)%nat) →
  Forall (fun c => Mem.wf h c = true) cs →
  ∃ h' ps,
    Mem.range cs body h = (h', map Mem.SendTask ps, Ok tt)
    ∧ Forall2 (fun c p => ∃ sl, p = Mem.set_Args c sl) cs ps
    ∧ (size h' ≤ size h + 2 * length cs)%nat.
Proof.
  intros Hbody Hwf. revert h Hwf.
  induction cs as [|c cs IH]; intros h Hwf.
  - exists h, []. repeat split; [constructor|simpl; lia].
  - apply Forall_cons in Hwf as [Hc Hcs].
    destruct (Hbody c h) as (h1 & sl & Hrun & Hsub1 & Hsize1); [by apply wf_parts|].
    destruct (IH h1 (Forall_wf_mono _ _ _ Hsub1 Hcs)) as (h2 & ps & Hrest & Hshape & Hsize2).
    exists h2, (Mem.set_Args c sl :: ps). split; [|split].
    + cbn [Mem.range]. unfold mbind, Mem.St_bind. rewrite Hrun, Hrest. reflexivity.
    + constructor; [by exists sl|done].
    + cbn [length]. lia.
Qed.

Lemma error_body_alloc (err : Go.error) c h :
  Mem.slice_ok h (Mem.Args c) = true →
  ∃ h' sl,
    (lit ← Mem.slice_lit [mkTaskArg (Go.Type_String (reflect.TypeOf err))
                                   (reflect.ValueOf_Interface err)];
     rest ← Mem.elements (Mem.Args c);
     args ← Mem.append lit rest;
     let errorTask := Mem.set_Args c args in
     Mem.emit (Mem.SendTask errorTask)) h
    = (h', [Mem.SendTask (Mem.set_Args c sl)], Ok tt)
    ∧ h ⊆ h' ∧ (size h' ≤ size h + 2)%nat.
Proof.
  intros Hok.
  destruct (prepend_step_alloc h (errorArg err) (Mem.Args c)
              (fun args => Mem.emit (Mem.SendTask (Mem.set_Args c args))) Hok)
    as (h' & sl & Hrun & Hsub & Hsize).
  exists h', sl. split; [exact Hrun|]. split; [done|].
  rewrite Hsize. case_decide; lia.
Qed.

Lemma success_body_alloc s t v c h :
  Mem.Immutable s = false →
  Mem.slice_ok h (Mem.Args c) = true →
  ∃ h' sl,
    (successTask ←
       (if bool_decide (Mem.Immutable s = false) then
          (t ← Mem.pure_ (reflect.Type_ (reflect.V t v));
           v ← Mem.pure_ (reflect.Interface (reflect.V t v));
           lit ← Mem.slice_lit [mkTaskArg (Go.Type_String t) v];
           rest ← Mem.elements (Mem.Args c);
           args ← Mem.append lit rest;
           mret (Mem.set_Args c args))
        else mret c);
     Mem.emit (Mem.SendTask successTask)) h
    = (h', [Mem.SendTask (Mem.set_Args c sl)], Ok tt)
    ∧ h ⊆ h' ∧ (size h' ≤ size h + 2)%nat.
Proof.
  intros Himm Hok. rewrite bool_decide_eq_true_2 by done.
  destruct (prepend_step_alloc h (resultArg t v) (Mem.Args c)
              (fun args => mret (Mem.set_Args c args)) Hok)
    as (h' & sl & Hrun & Hsub & Hsize).
  exists h', sl. split; [|split; [done|rewrite Hsize; case_decide; lia]].
  apply (St_bind_Ok _ (fun successTask => Mem.emit (Mem.SendTask successTask)) h h').
  erewrite St_bind_Ok; [|reflexivity].
  erewrite St_bind_Ok; [|reflexivity].
  exact Hrun.
Qed.

Lemma set_Args_self c : c = Mem.set_Args c (Mem.Args c).
Proof. by destruct c. Qed.

(** What the memory-level [finalize] publishes and allocates, branch by
    branch. *)
Lemma Mem_finalize_shape h s result err :
  Mem.wf h s = true →
  ∃ h' tr r,
    Mem.finalize s result err h = (h', tr, r)
    ∧ (size h' ≤ size h + 2 * length (Mem.published tr))%nat
    ∧ (err = None → Mem.Immutable s = true → h' = h)
    ∧ (err = None → result = reflect.Zero → h' = h ∧ Mem.published tr = [])
    ∧ (is_Some err →
       Forall2 (fun c p => ∃ sl, p = Mem.set_Args c sl) (Mem.OnError s) (Mem.published tr))
    ∧ (err = None → result ≠ reflect.Zero →
       Forall2 (fun c p => ∃ sl, p = Mem.set_Args c sl) (Mem.OnSuccess s) (Mem.published tr)).
Proof.
  intros Hwf. destruct (wf_parts _ _ Hwf) as (_ & Hs & He).
  destruct err as [err|].
  - destruct (range_shape_alloc _ (Mem.OnError s) h (error_body_alloc err) He)
      as (h' & ps & Hrun & Hshape & Hsize).
    exists h', ([Mem.LogFailed (Mem.Name s); Mem.LogError err] ++ map Mem.SendTask ps), (Ok tt).
    assert (Hpub : Mem.published ([Mem.LogFailed (Mem.Name s); Mem.LogError err]
                                    ++ map Mem.SendTask ps) = ps).
    { unfold Mem.published. rewrite omap_app. cbn [omap list_omap app].
      fold (Mem.published (map Mem.SendTask ps)). by rewrite published_map_SendTask. }
    rewrite Hpub. split; [|split; [|split; [done|split; [done|split; [done|done]]]]].
    + unfold Mem.finalize. apply emit_then, emit_then. exact Hrun.
    + rewrite <- (Forall2_length _ _ _ Hshape). exact Hsize.
  - destruct result as [|t v].
    + exists h, [Mem.LogFinished (Mem.Name s)],
        (Panic "reflect: call of reflect.Value.Interface on zero Value").
      split; [reflexivity|]. split; [simpl; lia|]. split; [done|]. split; [done|].
      split; [by intros [? ?]|done].
    + destruct (Mem.Immutable s) eqn:Himm.
      * exists h, ([Mem.LogFinished (Mem.Name s); Mem.LogResult v]
                     ++ map Mem.SendTask (Mem.OnSuccess s)), (Ok tt).
        assert (Hpub : Mem.published ([Mem.LogFinished (Mem.Name s); Mem.LogResult v]
                                        ++ map Mem.SendTask (Mem.OnSuccess s))
                       = Mem.OnSuccess s).
        { unfold Mem.published. rewrite omap_app. cbn [omap list_omap app].
          fold (Mem.published (map Mem.SendTask (Mem.OnSuccess s))).
          by rewrite published_map_SendTask. }
        rewrite Hpub. split; [|split; [lia|split; [done|split; [done|split]]]].
        -- unfold Mem.finalize. apply emit_then.
           erewrite St_bind_Ok; [|reflexivity]. apply emit_then.
           rewrite Mem_range_ext with (g := fun c => Mem.emit (Mem.SendTask c)).
           ++ by rewrite range_SendTask.
           ++ intros c h0. rewrite Himm. by erewrite St_bind_Ok.
        -- by intros [? ?].
        -- intros _ _. apply Forall2_same_length_lookup_2; [done|].
           intros i c p Hc Hp. rewrite Hc in Hp. injection Hp as <-.
           exists (Mem.Args c). apply set_Args_self.
      * destruct (range_shape_alloc _ (Mem.OnSuccess s) h
                    (fun c h0 => success_body_alloc s t v c h0 Himm) Hs)
          as (h' & ps & Hrun & Hshape & Hsize).
        exists h', ([Mem.LogFinished (Mem.Name s); Mem.LogResult v] ++ map Mem.SendTask ps), (Ok tt).
        assert (Hpub : Mem.published ([Mem.LogFinished (Mem.Name s); Mem.LogResult v]
                                        ++ map Mem.SendTask ps) = ps).
        { unfold Mem.published. rewrite omap_app. cbn [omap list_omap app].
          fold (Mem.published (map Mem.SendTask ps)). by rewrite published_map_SendTask. }
        rewrite Hpub. split; [|split; [|split; [done|split; [done|split]]]].
        -- unfold Mem.finalize. apply emit_then.
           erewrite St_bind_Ok; [|reflexivity]. apply emit_then. exact Hrun.
        -- rewrite <- (Forall2_length _ _ _ Hshape). exact Hsize.
        -- by intros [? ?].
        -- done.
Qed.

End MemAccounting.

(** X8: the memory-level [finalize] implements [finalize]: on a
    well-formed signature, its log lines and publish calls, read in the
    memory it leaves, are the trace of [finalize] on the signature read in
    the memory it started from, and both end the same way. What is
    published depends on what the argument lists show, not on where they
    are. *)
Theorem X8_memory_finalize_implements_finalize (h : Mem.heap) (s : Mem.Sig)
    (result : reflect.Value) (err : option Go.error) :
  Mem.wf h s = true →
  map (view_event (Mem.finalize s result err h).1.1) (Mem.finalize s result err h).1.2
    = trace (finalize (view h s) result err)
  ∧ (Mem.finalize s result err h).2 = outcome (finalize (view h s) result err).
Proof.
  intros Hwf.
  destruct (Mem_finalize_spec h s result err Hwf)
    as (h' & tr & r & -> & _ & Htr & Hr & _). done.
Qed.

Lemma X8_witness :
  map (view_event (Mem.finalize (Sample.mem_origin false) Sample.five None Sample.heap0).1.1)
      (Mem.finalize (Sample.mem_origin false) Sample.five None Sample.heap0).1.2
    = trace (finalize (view Sample.heap0 (Sample.mem_origin false)) Sample.five None)
  ∧ (Mem.finalize (Sample.mem_origin false) Sample.five None Sample.heap0).2
    = outcome (finalize (view Sample.heap0 (Sample.mem_origin false)) Sample.five None).
Proof.
  apply (X8_memory_finalize_implements_finalize Sample.heap0 (Sample.mem_origin false)
           Sample.five None).
  vm_compute. reflexivity.
Defined.

(** X9: every published signature is its template with at most the header
    of [Args] replaced, one for one and in order: name, flag and the
    nested continuation lists, with the headers of their argument lists,
    are the template's. On the zero Value nothing is published. *)
Theorem X9_published_is_template_with_new_header (h : Mem.heap) (s : Mem.Sig)
    (result : reflect.Value) (err : option Go.error) :
  Mem.wf h s = true →
  match err, result with
  | Some _, _ =>
      Forall2 (fun c p => ∃ sl, p = Mem.set_Args c sl)
        (Mem.OnError s) (Mem.published (Mem.finalize s result err h).1.2)
  | None, reflect.V _ _ =>
      Forall2 (fun c p => ∃ sl, p = Mem.set_Args c sl)
        (Mem.OnSuccess s) (Mem.published (Mem.finalize s result err h).1.2)
  | None, reflect.Zero => Mem.published (Mem.finalize s result err h).1.2 = []
  end.
Proof.
  intros Hwf.
  destruct (Mem_finalize_shape h s result err Hwf)
    as (h' & tr & r & -> & _ & _ & Hzero & Herr & Hok). cbn [fst snd].
  destruct err as [err|]; [by apply Herr|].
  destruct result as [|t v]; [by apply Hzero|by apply Hok].
Qed.

Lemma X9_witness :
  Forall2 (fun c p => ∃ sl, p = Mem.set_Args c sl)
    (Mem.OnError (Sample.mem_origin true))
    (Mem.published
       (Mem.finalize (Sample.mem_origin true) reflect.Zero
          (Some (Go.errors_New "disk full")) Sample.heap0).1.2).
Proof.
  apply (X9_published_is_template_with_new_header Sample.heap0 (Sample.mem_origin true)
           reflect.Zero (Some (Go.errors_New "disk full"))).
  vm_compute. reflexivity.
Defined.

(** X10: [finalize] allocates at most two arrays for each signature it
    publishes (the one-element literal and, when the template has
    arguments, the array [append] copies into), and none at all in the
    success branch of an immutable signature, which leaves the memory as
    it found it. *)
Theorem X10_allocation (h : Mem.heap) (s : Mem.Sig)
    (result : reflect.Value) (err : option Go.error) :
  Mem.wf h s = true →
  (size (Mem.finalize s result err h).1.1
   ≤ size h + 2 * length (Mem.published (Mem.finalize s result err h).1.2))%nat
  ∧ (err = None → Mem.Immutable s = true → (Mem.finalize s result err h).1.1 = h).
Proof.
  intros Hwf.
  destruct (Mem_finalize_shape h s result err Hwf)
    as (h' & tr & r & -> & Hsize & Himm & _). done.
Qed.

Lemma X10_witness :
  (size (Mem.finalize (Sample.mem_origin true) Sample.five None Sample.heap0).1.1
   ≤ size Sample.heap0
     + 2 * length (Mem.published
                     (Mem.finalize (Sample.mem_origin true) Sample.five None
                        Sample.heap0).1.2))%nat
  ∧ (None = (None : option Go.error) → Mem.Immutable (Sample.mem_origin true) = true →
     (Mem.finalize (Sample.mem_origin true) Sample.five None Sample.heap0).1.1
     = Sample.heap0).
Proof.
  apply (X10_allocation Sample.heap0 (Sample.mem_origin true) Sample.five None).
  vm_compute. reflexivity.
Defined.

(** X11: [finalize] keeps the memory well formed: every array that was
    there is there unchanged, the signature it was given is still backed,
    and so is every signature it published, nested lists included. *)
Theorem X11_memory_stays_well_formed (h : Mem.heap) (s : Mem.Sig)
    (result : reflect.Value) (err : option Go.error) :
  Mem.wf h s = true →
  h ⊆ (Mem.finalize s result err h).1.1
  ∧ Mem.wf (Mem.finalize s result err h).1.1 s = true
  ∧ Forall (fun p => Mem.wf (Mem.finalize s result err h).1.1 p = true)
      (Mem.published (Mem.finalize s result err h).1.2).
Proof.
  intros Hwf.
  destruct (Mem_finalize_spec h s result err Hwf)
    as (h' & tr & r & -> & Hsub & _ & _ & Hwfs & _). cbn [fst snd].
  split; [done|]. split; [by eapply wf_mono|done].
Qed.

Lemma X11_witness :
  Sample.heap0
    ⊆ (Mem.finalize (Sample.mem_origin false) Sample.five None Sample.heap0).1.1
  ∧ Mem.wf (Mem.finalize (Sample.mem_origin false) Sample.five None Sample.heap0).1.1
      (Sample.mem_origin false) = true
  ∧ Forall (fun p => Mem.wf
                       (Mem.finalize (Sample.mem_origin false) Sample.five None
                          Sample.heap0).1.1 p = true)
      (Mem.published
         (Mem.finalize (Sample.mem_origin false) Sample.five None Sample.heap0).1.2).
Proof.
  apply (X11_memory_stays_well_formed Sample.heap0 (Sample.mem_origin false)
           Sample.five None).
  vm_compute. reflexivity.
Defined.

(** ** [Launch] *)

Lemma worker_events_map_Worker (tr : list Event) :
  worker_events (map Worker tr) = tr.
Proof. induction tr as [|e tr IH]; [done|]. unfold worker_events in *. cbn. by rewrite IH. Qed.

Lemma closes_map_Worker (tr : list Event) : closes (map Worker tr) = 0%nat.
Proof. induction tr as [|e tr IH]; [done|]. unfold closes in *. by cbn. Qed.

(** X12: [Launch] closes what it opened. When [conn.Open] fails, [Launch]
    returns its error, the worker sees no message and nothing is closed.
    When it succeeds, the worker's events are those of
    [WaitForMessages] given [processMessage], the connection is closed
    exactly once and after all of them, also when waiting panics, and
    [Launch] returns nil unless waiting panicked. *)
Theorem X12_Launch_closes_what_it_opened {Body : Type}
    (json_Unmarshal : Body → TaskSignature → TaskSignature * option Go.error)
    (ReflectArgs : list TaskArg → list reflect.Value * option Go.error)
    (registeredTasks : gmap string Task)
    (conn_Open : option Go.error)
    (WaitForMessages : (Body → M unit) → M unit) (cnf : Config) :
  match conn_Open with
  | Some err =>
      (Launch json_Unmarshal ReflectArgs registeredTasks conn_Open WaitForMessages cnf).2
        = Ok (Some err)
      ∧ worker_events
          (Launch json_Unmarshal ReflectArgs registeredTasks conn_Open WaitForMessages cnf).1
        = []
      ∧ closes
          (Launch json_Unmarshal ReflectArgs registeredTasks conn_Open WaitForMessages cnf).1
        = 0%nat
  | None =>
      worker_events
        (Launch json_Unmarshal ReflectArgs registeredTasks conn_Open WaitForMessages cnf).1
        = trace (WaitForMessages (processMessage json_Unmarshal ReflectArgs registeredTasks))
      ∧ closes
          (Launch json_Unmarshal ReflectArgs registeredTasks conn_Open WaitForMessages cnf).1
        = 1%nat
      ∧ last
          (Launch json_Unmarshal ReflectArgs registeredTasks conn_Open WaitForMessages cnf).1
        = Some Close
      ∧ (Launch json_Unmarshal ReflectArgs registeredTasks conn_Open WaitForMessages cnf).2
        = match outcome (WaitForMessages
                           (processMessage json_Unmarshal ReflectArgs registeredTasks)) with
          | Ok _ => Ok None
          | Panic msg => Panic msg
          end
  end.
Proof.
  unfold Launch. destruct conn_Open as [err|]; [done|].
  destruct (WaitForMessages _) as [tr r]. cbn [fst snd trace outcome].
  split; [|split; [|split; [|done]]].
  - unfold worker_events. cbn [app omap list_omap].
    rewrite omap_app. fold (worker_events (map Worker tr)).
    rewrite worker_events_map_Worker. cbn. apply app_nil_r.
  - unfold closes. cbn [app omap list_omap].
    rewrite omap_app. fold (closes (map Worker tr)).
    rewrite length_app. fold (closes (map Worker tr)). by rewrite closes_map_Worker.
  - rewrite !app_assoc. apply last_snoc.
Qed.
